(** * The jump-code engine of claude-agent-squad

    A shallow embedding of the command engine and the properties of it
    that the specification states.  The definitions follow the Python
    sources class by class:
    - [jump_codes.py]: modules [JumpCode] and [JumpCodeRegistry];
    - [agent_squad_jump_integration.py]: module [EnhancedAgentSquad];
    - [advanced_jump_codes.py]: modules [SequentialJumpCodes] and
      [JumpCodeMacros];
    - [enhanced_jump_codes.py]: module [EnhancedJumpCodeProcessor].

    Python [str] values are Rocq strings whose characters are read as the
    code points 0..127, and the character classes of [PyStr] are Python's
    classes on that range; [PyStr.is_ascii] names the range.  [int] on a
    string of digits has the limit of 4300 digits that CPython sets by
    default.  Dictionaries are finite maps; a call that
    raises is the [Raise] branch of [result]; a handler is a function of
    the context and its arguments that also gives the context back, since
    the dictionary is shared; the wall clock and the order in which
    parallel tasks complete are explicit inputs.  Logging is left out; the
    values it formats are taken to be ones that [str] converts. *)

From Stdlib Require Import String Ascii ZArith NArith List Lia QArith.
From stdpp Require Import gmap strings list fin_maps pretty.

Open Scope string_scope.
#[local] Set Warnings "-register-all".

(** ** Python strings *)

Module PyStr.

Definition newline : ascii := "010"%char.

Definition is_digit (c : ascii) : bool :=
  (N_of_ascii "0" <=? N_of_ascii c)%N && (N_of_ascii c <=? N_of_ascii "9")%N.

Definition is_upper (c : ascii) : bool :=
  (N_of_ascii "A" <=? N_of_ascii c)%N && (N_of_ascii c <=? N_of_ascii "Z")%N.

Definition is_lower (c : ascii) : bool :=
  (N_of_ascii "a" <=? N_of_ascii c)%N && (N_of_ascii c <=? N_of_ascii "z")%N.

Definition is_alpha (c : ascii) : bool := is_upper c || is_lower c.

(** [\w] of the [re] module. *)
Definition is_word (c : ascii) : bool :=
  is_alpha c || is_digit c || Ascii.eqb c "_".

(** [str.isspace] on one character: tab, LF, VT, FF, CR, the four
    separators 0x1c..0x1f and the blank. *)
Definition is_space (c : ascii) : bool :=
  let n := N_of_ascii c in
  ((9 <=? n)%N && (n <=? 13)%N) || ((28 <=? n)%N && (n <=? 32)%N).


Fixpoint all (p : ascii -> bool) (s : string) : bool :=
  match s with
  | "" => true
  | String c s' => p c && all p s'
  end.

Definition lower_char (c : ascii) : ascii :=
  if is_upper c then ascii_of_N (N_of_ascii c + 32) else c.

(** [s.lower()] *)
Fixpoint lower (s : string) : string :=
  match s with
  | "" => ""
  | String c s' => String (lower_char c) (lower s')
  end.

(** [s.isdigit()]: non-empty and digits only. *)
Definition isdigit (s : string) : bool :=
  negb (String.eqb s "") && all is_digit s.

Fixpoint lstrip (s : string) : string :=
  match s with
  | "" => ""
  | String c s' => if is_space c then lstrip s' else s
  end.

Fixpoint rstrip (s : string) : string :=
  match s with
  | "" => ""
  | String c s' =>
      let r := rstrip s' in
      if String.eqb r "" && is_space c then "" else String c r
  end.

(** [s.strip()] *)
Definition strip (s : string) : string := rstrip (lstrip s).

(** The longest prefix whose characters satisfy [p], and the rest. *)
Fixpoint span (p : ascii -> bool) (s : string) : string * string :=
  match s with
  | "" => ("", "")
  | String c s' =>
      if p c then let '(a, b) := span p s' in (String c a, b) else ("", s)
  end.

(** [c in s] for a one-character [c]. *)
Fixpoint has_char (c : ascii) (s : string) : bool :=
  match s with
  | "" => false
  | String d s' => Ascii.eqb c d || has_char c s'
  end.

(** [s.split(sep)] for a one-character separator. *)
Fixpoint split (sep : ascii) (s : string) : list string :=
  match s with
  | "" => [""]
  | String c s' =>
      if Ascii.eqb c sep then "" :: split sep s'
      else match split sep s' with
           | [] => [String c ""]
           | w :: ws => String c w :: ws
           end
  end.

(** [s.split(sep, 1)] when [sep] occurs in [s]: the text before the
    first separator and the text after it. *)
Fixpoint split1 (sep : ascii) (s : string) : string * string :=
  match s with
  | "" => ("", "")
  | String c s' =>
      if Ascii.eqb c sep then ("", s')
      else let '(a, b) := split1 sep s' in (String c a, b)
  end.

(** [s.replace(c, '', 1)] *)
Fixpoint remove_first (c : ascii) (s : string) : string :=
  match s with
  | "" => ""
  | String d s' => if Ascii.eqb d c then s' else String d (remove_first c s')
  end.

Definition digit_val (c : ascii) : N := (N_of_ascii c - N_of_ascii "0")%N.

Fixpoint digits_val (acc : N) (s : string) : N :=
  match s with
  | "" => acc
  | String c s' => digits_val (10 * acc + digit_val c) s'
  end.

(** [int(s)] on a string of decimal digits. *)
Definition int_of (s : string) : N := digits_val 0 s.

(** [s.startswith(p)] *)
Definition startswith (p s : string) : bool := String.prefix p s.

(** [needle in hay] *)
Fixpoint contains (needle hay : string) : bool :=
  String.prefix needle hay ||
  match hay with
  | "" => false
  | String _ hay' => contains needle hay'
  end.

(** [sep.join(l)] *)
Fixpoint join (sep : string) (l : list string) : string :=
  match l with
  | [] => ""
  | [s] => s
  | s :: l' => s +:+ sep +:+ join sep l'
  end.

(** [re.match(r'^[a-zA-Z_]\w*$', s)]; [$] also matches before a final
    line feed. *)
Definition is_identifier (s : string) : bool :=
  match s with
  | "" => false
  | String c r =>
      (is_alpha c || Ascii.eqb c "_") &&
      let '(_, rest) := span is_word r in
      String.eqb rest "" || String.eqb rest (String newline "")
  end.

Definition hex_digit (n : N) : ascii :=
  if (n <? 10)%N then ascii_of_N (N_of_ascii "0" + n)
  else ascii_of_N (N_of_ascii "a" + (n - 10)).

(** One character of [repr(s)] inside the quote [q]. *)
Definition repr_char (q c : ascii) : string :=
  let n := N_of_ascii c in
  if Ascii.eqb c q || Ascii.eqb c "\" then String "\" (String c "")
  else if Ascii.eqb c "009" then "\t"
  else if Ascii.eqb c "010" then "\n"
  else if Ascii.eqb c "013" then "\r"
  else if (n <? 32)%N || (n =? 127)%N then
    String "\" (String "x" (String (hex_digit (n / 16)) (String (hex_digit (n mod 16)) "")))
  else String c "".

Fixpoint repr_body (q : ascii) (s : string) : string :=
  match s with
  | "" => ""
  | String c s' => repr_char q c +:+ repr_body q s'
  end.

(** [repr(s)]: single quotes, unless [s] has a single quote and no
    double quote. *)
Definition repr (s : string) : string :=
  let q : ascii :=
    if has_char "'" s && negb (has_char "034" s) then "034"%char else "'"%char in
  String q (repr_body q s +:+ String q "").

(** [c * n] for a one-character [c]. *)
Fixpoint replicate (n : nat) (c : ascii) : string :=
  match n with
  | O => ""
  | S n' => String c (replicate n' c)
  end.

(** [repr] of a list of strings. *)
Definition repr_list (l : list string) : string :=
  "[" +:+ join ", " (repr <$> l) +:+ "]".

End PyStr.

(** ** Python values, exceptions and results *)

(** A float is kept as the decimal it was read from: [VFloat n d] is the
    double nearest to [n / 10^d].  [VDatetime t] is a [datetime] at
    microsecond [t]. *)
Inductive pyval : Type :=
  | VNone
  | VBool (b : bool)
  | VInt (n : Z)
  | VFloat (num : N) (decimals : nat)
  | VStr (s : string)
  | VDatetime (t : Z)
  | VList (l : list pyval)
  | VDict (d : gmap string pyval).

(** An exception: its class name and [str(e)]. *)
Inductive exn : Type := PyExn (cls : string) (msg : string).

Definition exn_str (e : exn) : string := let 'PyExn _ m := e in m.

Definition ValueError (msg : string) : exn := PyExn "ValueError" msg.
Definition TypeError (msg : string) : exn := PyExn "TypeError" msg.

Inductive result (A : Type) : Type :=
  | Ok (a : A)
  | Raise (e : exn).
Arguments Ok {A} a.
Arguments Raise {A} e.

#[global] Instance result_ret : MRet result := fun _ a => Ok a.
#[global] Instance result_bind : MBind result := fun _ _ k r =>
  match r with
  | Ok a => k a
  | Raise e => Raise e
  end.

Definition is_ok {A} (r : result A) : bool :=
  match r with Ok _ => true | Raise _ => false end.

(** ** jump_codes.py *)

(** A handler models the call [handler(context=context, **final_params)]
    as a whole, argument binding included: it receives the context and
    the keyword arguments, returns or raises, and leaves the context
    dictionary (shared by reference) in a new state. *)
Record hreturn := mk_hreturn {
  h_out : result pyval;
  h_ctx : gmap string pyval
}.

Module JumpCode.

Record t := mk {
  code : string;
  description : string;
  handler : gmap string pyval -> gmap string pyval -> hreturn;
  parameters : gmap string pyval;
  aliases : list string;
  context_required : list string
}.

End JumpCode.

Module JumpCodeRegistry.

Import PyStr.

Record t := mk {
  codes : gmap string JumpCode.t;
  aliases : gmap string string
}.

(** [register]; the two warnings it logs on overriding are not kept. *)
Definition register (self : t) (jump_code : JumpCode.t) : result t :=
  if negb (is_identifier (JumpCode.code jump_code)) then
    Raise (ValueError ("Invalid jump code format: " +:+ JumpCode.code jump_code))
  else
    Ok (mk (<[JumpCode.code jump_code := jump_code]> (codes self))
           (foldl (fun al alias => <[alias := JumpCode.code jump_code]> al)
                  (aliases self) (JumpCode.aliases jump_code))).

Definition unregister (self : t) (code : string) : bool * t :=
  match codes self !! code with
  | Some jump_code =>
      (true,
       mk (delete code (codes self))
          (foldl (fun al alias => delete alias al)
                 (aliases self) (JumpCode.aliases jump_code)))
  | None => (false, self)
  end.

Record parsed := mk_parsed {
  parsed_code : string;
  parsed_parameters : gmap string pyval
}.

(** [re.match(r'^(\w+)(?::(.+))?$', s)]: groups 1 and 2.  [.] does not
    match a line feed and [$] also matches before a final line feed. *)
Definition match_code (s : string) : option (string * option string) :=
  let '(w, rest) := span is_word s in
  if String.eqb w "" then None
  else match rest with
       | "" => Some (w, None)
       | String c r =>
           if Ascii.eqb c newline then
             if String.eqb r "" then Some (w, None) else None
           else if Ascii.eqb c ":" then
             let '(d, r') := span (fun x => negb (Ascii.eqb x newline)) r in
             if String.eqb d "" then None
             else if String.eqb r' "" || String.eqb r' (String newline "")
                  then Some (w, Some d) else None
           else None
       end.

(** [float(value)] on digits around one decimal point. *)
Definition float_of (value : string) : pyval :=
  let '(a, b) := split1 "." value in
  VFloat (int_of (a +:+ b)) (String.length b).

(** The number of digits up to which [int] converts a decimal string:
    CPython's default for [sys.get_int_max_str_digits()]. *)
Definition int_max_str_digits : nat := 4300.

(** What [int] raises for a string of [n] digits, [n] over the limit. *)
Definition int_limit_error (n : nat) : exn :=
  ValueError ("Exceeds the limit (4300 digits) for integer string conversion: value has "
              +:+ pretty n
              +:+ " digits; use sys.set_int_max_str_digits() to increase the limit").

(** [int(value)] on a non-empty string of digits. *)
Definition int_of_digits (value : string) : result pyval :=
  if (int_max_str_digits <? String.length value)%nat
  then Raise (int_limit_error (String.length value))
  else Ok (VInt (Z.of_N (int_of value))).

(** The chain of type tests applied to a stripped value. *)
Definition coerce (value : string) : result pyval :=
  if String.eqb (lower value) "true" || String.eqb (lower value) "false"
  then Ok (VBool (String.eqb (lower value) "true"))
  else if isdigit value then int_of_digits value
  else if isdigit (remove_first "." value) then Ok (float_of value)
  else Ok (VStr value).

(** One turn of the loop over [params_str.split(',')]. *)
Definition parse_param (parameters : gmap string pyval) (param : string)
  : result (gmap string pyval) :=
  let param := strip param in
  if has_char "=" param then
    let '(key, value) := split1 "=" param in
    value ← coerce (strip value);
    Ok (<[strip key := value]> parameters)
  else Ok (<[param := VBool true]> parameters).

(** The loop over [params_str.split(',')]; the first exception ends it. *)
Fixpoint parse_params (parameters : gmap string pyval) (params : list string)
  : result (gmap string pyval) :=
  match params with
  | [] => Ok parameters
  | param :: params' =>
      parameters ← parse_param parameters param;
      parse_params parameters params'
  end.

Definition _parse_jump_code (code_string : string) : result parsed :=
  let code_string :=
    match code_string with
    | String "@" rest => rest
    | _ => code_string
    end in
  match match_code code_string with
  | None => Raise (ValueError ("Invalid jump code format: " +:+ code_string))
  | Some (code, group2) =>
      let params_str := default "" group2 in
      parameters ← (if String.eqb params_str "" then Ok ∅
                    else parse_params ∅ (split "," params_str));
      Ok (mk_parsed code parameters)
  end.

Definition _validate_context (required : list string)
    (context : gmap string pyval) : result unit :=
  let missing := filter (fun key => context !! key = None) required in
  match missing with
  | [] => Ok tt
  | _ => Raise (ValueError ("Missing required context: " +:+ join ", " missing))
  end.

(** The name the handler is looked up under: the alias target if the
    parsed name is an alias. *)
Definition resolve (self : t) (code_name : string) : string :=
  default code_name (aliases self !! code_name).

(** [execute]: every exception is logged and raised again. *)
Definition execute (self : t) (code_string : string)
    (context : gmap string pyval) : hreturn :=
  match _parse_jump_code code_string with
  | Raise e => mk_hreturn (Raise e) context
  | Ok parsed =>
      let code_name := resolve self (parsed_code parsed) in
      match codes self !! code_name with
      | None =>
          mk_hreturn (Raise (ValueError ("Unknown jump code: " +:+ code_name)))
                     context
      | Some jump_code =>
          match (match JumpCode.context_required jump_code with
                 | [] => Ok tt
                 | required => _validate_context required context
                 end) with
          | Raise e => mk_hreturn (Raise e) context
          | Ok _ =>
              let final_params :=
                parsed_parameters parsed ∪ JumpCode.parameters jump_code in
              JumpCode.handler jump_code context final_params
          end
      end
  end.

End JumpCodeRegistry.

(** ** Truth value and the wall clock *)

(** [bool(v)] *)
Definition truthy (v : pyval) : bool :=
  match v with
  | VNone => false
  | VBool b => b
  | VInt n => negb (n =? 0)%Z
  | VFloat n _ => negb (n =? 0)%N
  | VStr s => negb (String.eqb s "")
  | VDatetime _ => true
  | VList l => match l with [] => false | _ => true end
  | VDict d => negb (bool_decide (d = ∅))
  end.

(** [type(v).__name__], qualified as error messages show it. *)
Definition type_name (v : pyval) : string :=
  match v with
  | VNone => "NoneType"
  | VBool _ => "bool"
  | VInt _ => "int"
  | VFloat _ _ => "float"
  | VStr _ => "str"
  | VDatetime _ => "datetime.datetime"
  | VList _ => "list"
  | VDict _ => "dict"
  end.

(** The readings of [datetime.now()] taken by one call of an engine
    operation, in the order they are taken, and the two formatters. *)
Record Clock := mk_clock {
  now : nat -> Z;
  strftime : Z -> string;
  isoformat : Z -> string
}.

(** [l[start:]] *)
Definition slice_from {A} (start : Z) (l : list A) : list A :=
  if (start <? 0)%Z
  then drop (Z.to_nat (Z.of_nat (length l) + start)) l
  else drop (Z.to_nat start) l.

(** ** agent_squad_jump_integration.py *)

Module EnhancedAgentSquad.

Import PyStr.

(** The part of the squad the engine works on. *)
Record t := mk {
  jump_registry : JumpCodeRegistry.t;
  current_context : gmap string pyval
}.

(** [process_jump_code]: the registry's exception becomes an error
    dictionary. *)
Definition process_jump_code (self : t) (code_string : string) : pyval * t :=
  let r := JumpCodeRegistry.execute (jump_registry self) code_string
             (current_context self) in
  let self' := mk (jump_registry self) (h_ctx r) in
  match h_out r with
  | Ok result => (result, self')
  | Raise e =>
      (VDict (<["error" := VBool true]>
             (<["message" := VStr ("Jump code error: " +:+ exn_str e)]>
             (<["code" := VStr code_string]> ∅))), self')
  end.

(** What [concurrent.futures.as_completed(future_to_task, timeout)] hands
    to the loop of [_parallel_handler]: the futures that complete before
    the deadline, in completion order, each with its task string and
    with what [future.result()] gives ([execute_task] returns a
    dictionary or raises); then the iterator stops, or raises
    [TimeoutError] when futures are still pending at the deadline. *)
Record completions := mk_completions {
  yielded : list (string * result (gmap string pyval));
  expired : bool
}.

Definition error_dict (message : string) : gmap string pyval :=
  <["error" := VBool true]> (<["message" := VStr message]> ∅).

(** The loop [for future in as_completed(...)], from the state
    [(results, failed)]; the boolean of the result tells whether the loop
    was left by [break]. *)
Fixpoint collect (fail_fast : bool)
    (ys : list (string * result (gmap string pyval)))
    (results : gmap string pyval) (failed : bool)
  : gmap string pyval * bool * bool :=
  match ys with
  | [] => (results, failed, false)
  | (task, Ok result) :: ys' =>
      let results := <[task := VDict result]> results in
      if fail_fast && truthy (default VNone (result !! "error"))
      then (results, true, true)
      else collect fail_fast ys' results failed
  | (task, Raise e) :: ys' =>
      let results := <[task := VDict (error_dict (exn_str e))]> results in
      if fail_fast then (results, true, true)
      else collect fail_fast ys' results failed
  end.

(** [[t.strip() for t in tasks.split(';') if t.strip()]] *)
Definition task_list_of (tasks : string) : list string :=
  filter (fun t => t ≠ "") (strip <$> split ";" tasks).

(** [_parallel_handler] for a task string, an integer timeout and the
    completions of the submitted futures. *)
Definition _parallel_handler (tasks : string) (timeout : Z) (fail_fast : bool)
    (sched : completions) : gmap string pyval :=
  let task_list := task_list_of tasks in
  match task_list with
  | [] => error_dict "No tasks provided for parallel execution"
  | _ =>
      let '(results, failed, broke) := collect fail_fast (yielded sched) ∅ false in
      if negb broke && expired sched then
        error_dict ("Parallel execution timed out after " +:+ pretty timeout
                    +:+ " seconds")
      else
        <["type" := VStr "parallel_execution"]>
        (<["tasks" := VList (VStr <$> task_list)]>
        (<["results" := VDict results]>
        (<["completed" := VInt (Z.of_nat (size results))]>
        (<["total" := VInt (Z.of_nat (length task_list))]>
        (<["failed" := VBool failed]>
        (<["message" := VStr ("Executed " +:+ pretty (size results) +:+ "/"
                              +:+ pretty (length task_list)
                              +:+ " tasks in parallel")]> ∅))))))
  end.

End EnhancedAgentSquad.

(** ** advanced_jump_codes.py: sequential execution *)

(** One entry of [results]: the dictionary with the keys [code],
    [success], [result] or [error], [position] and [timestamp]. *)
Module Step.

Record t := mk {
  code : string;
  success : bool;
  result : option pyval;
  error : option string;
  position : nat;
  timestamp : string
}.

Definition to_dict (s : t) : pyval :=
  let d : gmap string pyval :=
    <["code" := VStr (code s)]>
    (<["success" := VBool (success s)]>
    (<["position" := VInt (Z.of_nat (position s))]>
    (<["timestamp" := VStr (timestamp s)]> ∅))) in
  let d := match result s with Some v => <["result" := v]> d | None => d end in
  let d := match error s with Some m => <["error" := VStr m]> d | None => d end in
  VDict d.

End Step.

(** One entry of [sequence_memory]; [duration] is in microseconds and
    [success_rate] is the exact quotient. *)
Module SequenceRecord.

Record t := mk {
  sequence : list string;
  results : list Step.t;
  timestamp : Z;
  duration : Z;
  completed : bool;
  success_rate : Q
}.

End SequenceRecord.

Module SequentialJumpCodes.

Import PyStr.

Record t := mk {
  registry : JumpCodeRegistry.t;
  sequence_memory : list SequenceRecord.t;
  max_memory_size : Z
}.

(** [__init__] *)
Definition init (registry : JumpCodeRegistry.t) : t := mk registry [] 100.

Definition critical_errors : list string :=
  ["Missing required context"; "Unknown jump code"; "Invalid jump code format"].

Definition _should_abort_sequence (error : exn) (position total : nat) : bool :=
  if existsb (fun critical => contains critical (exn_str error)) critical_errors
  then true
  else if (position =? total - 1)%nat then false
  else false.

Definition protected_keys : list string :=
  ["sequence_id"; "sequence_position"; "previous_results"].

(** The loop over [result.items()] that updates the shared context. *)
Definition merge_result (shared_context result : gmap string pyval)
  : gmap string pyval :=
  map_fold (fun key value ctx =>
              if bool_decide (key ∈ protected_keys) then ctx
              else <[key := value]> ctx)
           shared_context result.

(** The context a step runs in: the position and a copy of the results
    so far are written into the shared context. *)
Definition enter_step (i : nat) (results : list Step.t)
    (shared_context : gmap string pyval) : gmap string pyval :=
  <["previous_results" := VList (Step.to_dict <$> results)]>
    (<["sequence_position" := VInt (Z.of_nat i)]> shared_context).

(** The entries appended to [results]. *)
Definition ok_step (clock : Clock) (code : string) (i : nat) (result : pyval)
  : Step.t :=
  Step.mk code true (Some result) None i (isoformat clock (now clock (2 + i))).

Definition failed_step (clock : Clock) (code : string) (i : nat) (e : exn)
  : Step.t :=
  Step.mk code false None (Some (exn_str e)) i
          (isoformat clock (now clock (2 + i))).

(** [if isinstance(result, dict): ...] *)
Definition update_context (shared_context : gmap string pyval) (result : pyval)
  : gmap string pyval :=
  match result with
  | VDict d => merge_result shared_context d
  | _ => shared_context
  end.

(** The loop [for i, code in enumerate(sequence)], from position [i] with
    the commands still to run; [total] is [len(sequence)]. *)
Fixpoint run_steps (registry : JumpCodeRegistry.t) (clock : Clock) (total : nat)
    (i : nat) (todo : list string)
    (shared_context : gmap string pyval) (results : list Step.t)
  : list Step.t * gmap string pyval :=
  match todo with
  | [] => (results, shared_context)
  | code :: todo' =>
      let r := JumpCodeRegistry.execute registry code
                 (enter_step i results shared_context) in
      match h_out r with
      | Ok result =>
          run_steps registry clock total (S i) todo'
            (update_context (h_ctx r) result)
            (results ++ [ok_step clock code i result])%list
      | Raise e =>
          let results := (results ++ [failed_step clock code i e])%list in
          if _should_abort_sequence e i total then (results, h_ctx r)
          else run_steps registry clock total (S i) todo' (h_ctx r) results
      end
  end.

Definition _add_to_memory (self : t) (record : SequenceRecord.t) : t :=
  let memory := (sequence_memory self ++ [record])%list in
  if (max_memory_size self <? Z.of_nat (length memory))%Z
  then mk (registry self) (slice_from (- max_memory_size self) memory)
          (max_memory_size self)
  else mk (registry self) memory (max_memory_size self).

Definition count_success (results : list Step.t) : nat :=
  length (filter (fun r => Step.success r = true) results).

Definition success_rate_of (results : list Step.t) : Q :=
  match results with
  | [] => 0
  | _ => Qmake (Z.of_nat (count_success results)) (Pos.of_nat (length results))
  end.

(** [execute_sequence]: the list of step results and the new state.  The
    duration is computed from [shared_context['sequence_start']] as the
    run left it. *)
Definition execute_sequence (self : t) (clock : Clock) (sequence : list string)
  : result (list Step.t * t) :=
  let shared_context : gmap string pyval :=
    <["sequence_id" := VStr (strftime clock (now clock 0))]>
    (<["sequence_start" := VDatetime (now clock 1)]> ∅) in
  let '(results, shared_context) :=
    run_steps (registry self) clock (length sequence) 0 sequence shared_context [] in
  let n := length results in
  match shared_context !! "sequence_start" with
  | None => Raise (PyExn "KeyError" "'sequence_start'")
  | Some (VDatetime start) =>
      let sequence_record :=
        SequenceRecord.mk sequence results (now clock (2 + n))
          (now clock (3 + n) - start)
          (length results =? length sequence)%nat
          (success_rate_of results) in
      Ok (results, _add_to_memory self sequence_record)
  | Some v =>
      Raise (TypeError ("unsupported operand type(s) for -: 'datetime.datetime' and '"
                        +:+ type_name v +:+ "'"))
  end.

(** [get_history] *)
Definition get_history (self : t) (limit : Z) : list SequenceRecord.t :=
  slice_from (- limit) (sequence_memory self).

End SequentialJumpCodes.

(** ** advanced_jump_codes.py: macros *)

Module Macro.

Record t := mk {
  sequence : list string;
  description : string;
  parameters : list string;
  created : Z;
  usage_count : nat
}.

End Macro.

(** One entry of the saved document.  A key that the document lacks is
    [None]. *)
Module MacroConfig.

Record t := mk {
  sequence : option (list string);
  description : option string;
  parameters : option (list string)
}.

End MacroConfig.

Module JumpCodeMacros.

Import PyStr.

Record t := mk { macros : gmap string Macro.t }.

(** [define_macro] at clock reading [created]; the parameter list
    defaults to the empty list. *)
Definition define_macro (self : t) (created : Z) (name : string)
    (sequence : list string) (description : string)
    (parameters : option (list string)) : result t :=
  if negb (is_identifier name) then
    Raise (ValueError ("Invalid macro name format: " +:+ name))
  else
    Ok (mk (<[name := Macro.mk sequence description (default [] parameters)
                         created 0]> (macros self))).

Definition defaults : list (string * (list string * string * list string)) :=
  [ ("init_project",
     (["@create_agent:role=project_manager,goal=coordinate project tasks";
       "@create_agent:role=developer,goal=implement features";
       "@create_agent:role=tester,goal=ensure quality";
       "@template:name=full_code_review"],
      "Initialize a new project with standard agents", []));
    ("quick_review",
     (["@create_agent:role=reviewer,goal=review code";
       "@assign_task:agent=reviewer,task=${task_description}";
       "@run_workflow:workflow=review"],
      "Quick code review workflow", ["task_description"]));
    ("debug_all",
     (["@debug:agent=all,verbose=true,save_logs=true"; "@status"; "@list_agents"],
      "Enable full debugging and show status", []));
    ("save_and_switch",
     (["@save_state:name=${checkpoint_name}";
       "@switch_context:context=${new_context},preserve_state=true"],
      "Save current state and switch context",
      ["checkpoint_name"; "new_context"]));
    ("parallel_analysis",
     (["@create_agent:role=code_analyst,goal=analyze code structure";
       "@create_agent:role=security_scanner,goal=find vulnerabilities";
       "@create_agent:role=performance_profiler,goal=identify bottlenecks";
       "@parallel:tasks=analyze_structure;scan_security;profile_performance"],
      "Parallel code analysis workflow", [])) ].

(** A run of [define_macro] over a list of definitions, the [k]-th one at
    clock reading [now (start + k)]; stops at the first exception. *)
Fixpoint define_all (self : t) (now : nat -> Z) (start : nat)
    (l : list (string * (list string * string * option (list string))))
  : result t :=
  match l with
  | [] => Ok self
  | (name, (sequence, description, parameters)) :: l' =>
      self' ← define_macro self (now start) name sequence description parameters;
      define_all self' now (S start) l'
  end.

(** [__init__] with [_load_default_macros] *)
Definition init (now : nat -> Z) : result t :=
  define_all (mk ∅) now 0
    ((fun '(name, (s, d, p)) => (name, (s, d, Some p))) <$> defaults).

Definition undefine_macro (self : t) (name : string) : bool * t :=
  match macros self !! name with
  | Some _ => (true, mk (delete name (macros self)))
  | None => (false, self)
  end.

(** A match of [\$\{(\w+)\}] at the start of [s]: group 1. *)
Definition placeholder_at (s : string) : option string :=
  match s with
  | String "$" (String "{" s') =>
      let '(name, rest) := span is_word s' in
      if String.eqb name "" then None
      else match rest with
           | String "}" _ => Some name
           | _ => None
           end
  | _ => None
  end.

(** The function [replacer] on a match with group 1 [param_name]. *)
Definition replacer (params : gmap string string) (param_name : string) : string :=
  match params !! param_name with
  | Some value => value
  | None => "${" +:+ param_name +:+ "}"
  end.

(** [re.sub(pattern, replacer, code)], scanning left to right: [skip] is
    the number of characters of the last match still to pass over. *)
Fixpoint sub_from (params : gmap string string) (skip : nat) (code : string)
  : string :=
  match code with
  | "" => ""
  | String c code' =>
      match skip with
      | S k => sub_from params k code'
      | O =>
          match placeholder_at code with
          | Some name =>
              replacer params name +:+ sub_from params (String.length name + 2) code'
          | None => String c (sub_from params 0 code')
          end
      end
  end.

Definition _substitute_params (code : string) (params : gmap string string)
  : string :=
  sub_from params 0 code.

(** [expand_macro]: the expanded sequence and the new state. *)
Definition expand_macro (self : t) (name : string) (params : gmap string string)
  : result (list string * t) :=
  match macros self !! name with
  | None => Raise (ValueError ("Unknown macro: " +:+ name))
  | Some macro =>
      let missing_params :=
        filter (fun p => params !! p = None) (Macro.parameters macro) in
      match missing_params with
      | _ :: _ =>
          Raise (ValueError ("Missing required parameters for macro '" +:+ name
                             +:+ "': " +:+ repr_list missing_params))
      | [] =>
          let expanded_sequence :=
            (fun code => _substitute_params code params) <$> Macro.sequence macro in
          let macro' :=
            Macro.mk (Macro.sequence macro) (Macro.description macro)
              (Macro.parameters macro) (Macro.created macro)
              (S (Macro.usage_count macro)) in
          Ok (expanded_sequence, mk (<[name := macro']> (macros self)))
      end
  end.

(** [save_macros]: the document handed to [json.dump], one entry per
    macro. *)
Definition save_macros (self : t) : list (string * MacroConfig.t) :=
  (fun '(name, macro) =>
     (name, MacroConfig.mk (Some (Macro.sequence macro))
              (Some (Macro.description macro))
              (Some (Macro.parameters macro))))
  <$> map_to_list (macros self).

(** The loop of [load_macros] over [data.items()], the [k]-th definition
    at clock reading [now (start + k)]. *)
Fixpoint load_items (self : t) (now : nat -> Z) (start : nat)
    (data : list (string * MacroConfig.t)) : result t :=
  match data with
  | [] => Ok self
  | (name, config) :: data' =>
      match MacroConfig.sequence config with
      | None => Raise (PyExn "KeyError" "'sequence'")
      | Some sequence =>
          self' ← define_macro self (now start) name sequence
                    (default "" (MacroConfig.description config))
                    (Some (default [] (MacroConfig.parameters config)));
          load_items self' now (S start) data'
      end
  end.

(** [load_macros] on the document [json.load] returns; the exception is
    logged and raised again. *)
Definition load_macros (self : t) (now : nat -> Z)
    (data : list (string * MacroConfig.t)) : result t :=
  load_items self now 0 data.

End JumpCodeMacros.

(** ** enhanced_jump_codes.py: the parser *)

Module EnhancedJumpCodeProcessor.

Import PyStr.

Record parsed := mk_parsed {
  name : string;
  params : gmap string string;
  raw : string
}.

(** [re.match(r'@(\w+)(?::(.+))?', code)]: groups 1 and 2; the pattern
    is not anchored at the end. *)
Definition match_code (code : string) : option (string * option string) :=
  match code with
  | String "@" s =>
      let '(w, rest) := span is_word s in
      if String.eqb w "" then None
      else match rest with
           | String ":" r =>
               let '(d, _) := span (fun x => negb (Ascii.eqb x newline)) r in
               if String.eqb d "" then Some (w, None) else Some (w, Some d)
           | _ => Some (w, None)
           end
  | _ => None
  end.

Definition parse_param (params : gmap string string) (param : string)
  : gmap string string :=
  if has_char "=" param then
    let '(key, value) := split1 "=" param in
    <[strip key := strip value]> params
  else <["value" := strip param]> params.

Definition parse_jump_code (code : string) : result parsed :=
  if negb (startswith "@" code) then
    Raise (ValueError ("Jump code must start with @: " +:+ code))
  else
    match match_code code with
    | None => Raise (ValueError ("Invalid jump code format: " +:+ code))
    | Some (name, group2) =>
        let params_str := default "" group2 in
        let params :=
          if String.eqb params_str "" then ∅
          else foldl parse_param ∅ (split "," params_str) in
        Ok (mk_parsed name params code)
    end.

(** [JumpCodeResult] without its two time fields; [data] is a handler's
    value or, for a macro, the list of the results of its commands. *)
Inductive JumpCodeResult : Type :=
  mk_result (success : bool) (data : option (pyval + list JumpCodeResult))
            (error : option string).

Definition success_of (r : JumpCodeResult) : bool :=
  let 'mk_result s _ _ := r in s.

(** [EnhancedJumpCodeRegistry]: the handlers by pattern, in insertion
    order, the aliases, the macros and the list [execution_history]. *)
Record registry_t := mk_registry {
  codes : list (string * (gmap string string -> gmap string pyval -> hreturn));
  aliases : gmap string string;
  macros : gmap string (list string);
  execution_history : list pyval
}.

(** [get_handler]; [re_match pattern code] stands for
    [re.match(pattern, code)] being a match. *)
Definition get_handler (re_match : string -> string -> bool)
    (self : registry_t) (code : string)
  : option (gmap string string -> gmap string pyval -> hreturn) :=
  let code := default code (aliases self !! code) in
  snd <$> List.find (fun entry => re_match (fst entry) code) (codes self).

(** [EnhancedJumpCodeProcessor]: its constructor sets [registry],
    [context] and [executor]; it sets no attribute [execution_history]. *)
Record t := mk {
  registry : registry_t;
  context : gmap string pyval
}.

(** What [self.execution_history.append(...)] raises on a processor. *)
Definition no_execution_history : exn :=
  PyExn "AttributeError"
    "'EnhancedJumpCodeProcessor' object has no attribute 'execution_history'".

(** [execute_async], with [execute_macro] as its inner loop; [fuel]
    bounds the nesting of macros, and [None] is fuel run out.  Both
    places that log the attempt raise [AttributeError]: after the handler
    has returned, which the [except] clause catches, and in the [except]
    clause itself, from where it leaves the function. *)
Fixpoint execute_async (fuel : nat) (re_match : string -> string -> bool)
    (self : t) (code : string) : option (result JumpCodeResult * t) :=
  match fuel with
  | O => None
  | S fuel' =>
      match parse_jump_code code with
      | Raise _ => Some (Raise no_execution_history, self)
      | Ok parsed =>
          match get_handler re_match (registry self) ("@" +:+ name parsed) with
          | Some handler =>
              let r := handler (params parsed) (context self) in
              Some (Raise no_execution_history, mk (registry self) (h_ctx r))
          | None =>
              match macros (registry self) !! name parsed with
              | None =>
                  Some (Ok (mk_result false None
                              (Some ("Unknown jump code: " +:+ code))), self)
              | Some commands =>
                  let execute_macro :=
                    fix loop (commands : list string)
                        (results : list JumpCodeResult) (self : t)
                      : option (result JumpCodeResult * t) :=
                      match commands with
                      | [] => Some (Ok (mk_result true (Some (inr results)) None), self)
                      | command :: commands' =>
                          match execute_async fuel' re_match self command with
                          | None => None
                          | Some (Raise e, self') => Some (Raise e, self')
                          | Some (Ok result, self') =>
                              let results := (results ++ [result])%list in
                              if negb (success_of result) then
                                Some (Ok (mk_result false (Some (inr results))
                                            (Some ("Macro failed at: " +:+ command))),
                                      self')
                              else loop commands' results self'
                          end
                      end in
                  match execute_macro commands [] self with
                  | None => None
                  | Some (Raise _, self') => Some (Raise no_execution_history, self')
                  | Some (Ok result, self') => Some (Ok result, self')
                  end
              end
          end
      end
  end.

End EnhancedJumpCodeProcessor.

(** ** Statements and sample data used by the properties *)

Module Samples.

(** A handler that returns its keyword arguments. *)
Definition echo (context kwargs : gmap string pyval) : hreturn :=
  mk_hreturn (Ok (VDict kwargs)) context.

(** A handler that raises [RuntimeError(message)]. *)
Definition failing (message : string) (context kwargs : gmap string pyval)
  : hreturn :=
  mk_hreturn (Raise (PyExn "RuntimeError" message)) context.

Definition jc_echo : JumpCode.t :=
  JumpCode.mk "echo" "Return the parameters" echo ∅ ["e"] [].

Definition jc_boom : JumpCode.t :=
  JumpCode.mk "boom" "Always fails" (failing "boom") ∅ ["b"; "e"] [].

Definition jc_lookup : JumpCode.t :=
  JumpCode.mk "lookup" "Fails like a missing command"
    (failing "Unknown jump code: inner") ∅ [] [].

Definition registry : JumpCodeRegistry.t :=
  JumpCodeRegistry.mk
    (<["echo" := jc_echo]> (<["boom" := jc_boom]> (<["lookup" := jc_lookup]> ∅)))
    ∅.

Definition clock : Clock :=
  mk_clock (fun k => Z.of_nat k) (fun t => "id" +:+ pretty t)
           (fun t => "t" +:+ pretty t).

(** History entries told apart by their time stamp. *)
Definition record (k : nat) : SequenceRecord.t :=
  SequenceRecord.mk [] [] (Z.of_nat k) 0 true 0.

Definition records (n : nat) : list SequenceRecord.t := record <$> seq 0 n.

End Samples.

(** A handler of [self] never changes the key [k] of the context it is
    given. *)
Definition handlers_keep (self : JumpCodeRegistry.t) (k : string) : Prop :=
  ∀ name jump_code context kwargs,
    JumpCodeRegistry.codes self !! name = Some jump_code ->
    h_ctx (JumpCode.handler jump_code context kwargs) !! k = context !! k.

(** The last [n] elements of a list, in order. *)
Definition last_n {A} (n : nat) (l : list A) : list A :=
  drop (length l - n) l.

(** The command [code_string] parses, resolves to a registered command
    whose required context keys are all present, and the call of its
    handler raises [e], leaving the context as [context']. *)
Definition handler_raises (self : JumpCodeRegistry.t) (code_string : string)
    (context : gmap string pyval) (e : exn) (context' : gmap string pyval)
  : Prop :=
  ∃ parsed jump_code,
    JumpCodeRegistry._parse_jump_code code_string = Ok parsed ∧
    JumpCodeRegistry.codes self
      !! JumpCodeRegistry.resolve self (JumpCodeRegistry.parsed_code parsed)
      = Some jump_code ∧
    (∀ key, key ∈ JumpCode.context_required jump_code -> is_Some (context !! key)) ∧
    JumpCode.handler jump_code context
      (JumpCodeRegistry.parsed_parameters parsed ∪ JumpCode.parameters jump_code)
    = mk_hreturn (Raise e) context'.

(** The sentence on handler exceptions, read on [execute]: whenever the
    handler of a command raises, [execute] returns a value. *)
Definition execute_catches_handler_exceptions : Prop :=
  ∀ self code_string context e context',
    handler_raises self code_string context e context' ->
    ∃ v, h_out (JumpCodeRegistry.execute self code_string context) = Ok v.

(** The sentence on the deadline of a parallel batch, read on
    [_parallel_handler]: when the deadline expires, the returned
    dictionary has a [results] entry in which every task that completed
    keeps what it returned and every task of the batch that did not
    complete has an error entry of its own. *)
Definition timeout_keeps_completed_outcomes : Prop :=
  ∀ tasks timeout fail_fast sched,
    EnhancedAgentSquad.expired sched = true ->
    ∃ results,
      EnhancedAgentSquad._parallel_handler tasks timeout fail_fast sched
        !! "results" = Some (VDict results) ∧
      (∀ task r, (task, Ok r) ∈ EnhancedAgentSquad.yielded sched ->
                 results !! task = Some (VDict r)) ∧
      (∀ task, task ∈ EnhancedAgentSquad.task_list_of tasks ->
               task ∉ (EnhancedAgentSquad.yielded sched).*1 ->
               ∃ message,
                 results !! task
                 = Some (VDict (EnhancedAgentSquad.error_dict message))).

(** The text the registry parser matches: the input without its leading
    [@], when it has one. *)
Definition strip_sigil (s : string) : string :=
  match s with
  | String "@" rest => rest
  | _ => s
  end.









(** The message holds one of the three texts [_should_abort_sequence]
    looks for. *)
Definition has_critical_text (message : string) : bool :=
  existsb (fun critical => PyStr.contains critical message)
          SequentialJumpCodes.critical_errors.


(** What a run reports: the number of recorded steps and the [completed]
    flags of the history afterwards. *)
Definition run_summary (r : result (list Step.t * SequentialJumpCodes.t))
  : option (nat * list bool) :=
  match r with
  | Ok (results, self) =>
      Some (length results,
            SequenceRecord.completed <$> SequentialJumpCodes.sequence_memory self)
  | Raise _ => None
  end.

(** The macro a reload restores: the saved fields, a new creation time
    and a usage count that starts again at zero. *)
Definition reloaded (macro : Macro.t) (created : Z) : Macro.t :=
  Macro.mk (Macro.sequence macro) (Macro.description macro)
           (Macro.parameters macro) created 0.

(** The macro after one more expansion. *)
Definition used (macro : Macro.t) : Macro.t :=
  Macro.mk (Macro.sequence macro) (Macro.description macro)
           (Macro.parameters macro) (Macro.created macro)
           (S (Macro.usage_count macro)).

(** A store with one macro that has been expanded twice. *)
Definition sample_macros : JumpCodeMacros.t :=
  JumpCodeMacros.mk
    (<["m" := Macro.mk ["@x:role=${r}"] "Create with a role" ["r"] 7 2]> ∅).

(** The entry of the saved document for one macro of the store. *)
Definition config_of (entry : string * Macro.t) : string * MacroConfig.t :=
  (entry.1, MacroConfig.mk (Some (Macro.sequence entry.2))
              (Some (Macro.description entry.2))
              (Some (Macro.parameters entry.2))).

(** The key that one token of the parameter list is stored under. *)
Definition token_key (token : string) : string :=
  let param := PyStr.strip token in
  if PyStr.has_char "=" param then PyStr.strip (PyStr.split1 "=" param).1
  else param.

(** The value that the token stores under its key, or the exception of
    its conversion. *)
Definition token_value (token : string) : result pyval :=
  let param := PyStr.strip token in
  if PyStr.has_char "=" param
  then JumpCodeRegistry.coerce (PyStr.strip (PyStr.split1 "=" param).2)
  else Ok (VBool true).




(** A value of one digit more than [int] converts. *)
Definition long_digits : string :=
  PyStr.replicate (S JumpCodeRegistry.int_max_str_digits) "7".

(** ** Further code of the four files *)

(** The names that [register] and [define_macro] accept: a letter or an
    underscore, then word characters, then possibly one final line
    feed. *)
Definition identifier_shape (s : string) : Prop :=
  ∃ c w nl,
    s = String c (w +:+ nl) ∧
    (PyStr.is_alpha c = true ∨ c = "_"%char) ∧
    PyStr.all PyStr.is_word w = true ∧
    (nl = "" ∨ nl = String PyStr.newline "").

Module CoreCodes.

(** [JumpCodeRegistry.__init__] with [_initialize_core_codes].  The three
    built-in handlers are bound methods that read the registry when they
    run; registration does not look at them, and they are arguments
    here. *)
Definition _initialize_core_codes
    (_status_handler _help_handler _list_handler
       : gmap string pyval -> gmap string pyval -> hreturn)
    (self : JumpCodeRegistry.t) : result JumpCodeRegistry.t :=
  self ← JumpCodeRegistry.register self
           (JumpCode.mk "status" "Show current system status" _status_handler
              ∅ ["s"; "stat"] []);
  self ← JumpCodeRegistry.register self
           (JumpCode.mk "help" "Show available jump codes" _help_handler
              (<["filter" := VStr ""]> ∅) ["h"; "?"] []);
  JumpCodeRegistry.register self
    (JumpCode.mk "list" "List all registered jump codes" _list_handler
       ∅ ["ls"; "l"] []).

Definition init
    (_status_handler _help_handler _list_handler
       : gmap string pyval -> gmap string pyval -> hreturn)
  : result JumpCodeRegistry.t :=
  _initialize_core_codes _status_handler _help_handler _list_handler
    (JumpCodeRegistry.mk ∅ ∅).

End CoreCodes.

(** ** advanced_jump_codes.py: the rest of [SequentialJumpCodes] *)

Module SequentialHistory.

Import SequentialJumpCodes.

(** [find_successful_sequences].  The rate is a quotient of two list
    lengths, on which the comparison with [1.0] is exact. *)
Definition find_successful_sequences (self : t) : list SequenceRecord.t :=
  filter (fun seq => SequenceRecord.completed seq = true
                     ∧ Qeq_bool (SequenceRecord.success_rate seq) 1 = true)
         (sequence_memory self).

(** [replay_sequence] *)
Definition replay_sequence (self : t) (clock : Clock) (sequence_index : Z)
  : result (list Step.t * t) :=
  match (if (0 <=? sequence_index)%Z
            && (sequence_index <? Z.of_nat (length (sequence_memory self)))%Z
         then sequence_memory self !! Z.to_nat sequence_index
         else None) with
  | Some record => execute_sequence self clock (SequenceRecord.sequence record)
  | None =>
      Raise (ValueError ("Invalid sequence index: " +:+ pretty sequence_index))
  end.

End SequentialHistory.

(** ** advanced_jump_codes.py: [JumpCodeMiddleware] *)

Module JumpCodeMiddleware.

Import PyStr.

(** The state the middleware works on: the squad with its registry and
    context, the sequential runner on the same registry, the macros. *)
Record t := mk {
  agent_squad : EnhancedAgentSquad.t;
  sequential : SequentialJumpCodes.t;
  macros : JumpCodeMacros.t
}.

(** [re.findall(r'\$\{(\w+)\}', code)]: group 1 of the matches from left
    to right; [skip] is the number of characters of the last match still
    to pass over. *)
Fixpoint findall_from (skip : nat) (code : string) : list string :=
  match code with
  | "" => []
  | String c code' =>
      match skip with
      | S k => findall_from k code'
      | O =>
          match JumpCodeMacros.placeholder_at code with
          | Some name => name :: findall_from (String.length name + 2) code'
          | None => findall_from 0 code'
          end
      end
  end.

Definition findall_placeholders (code : string) : list string :=
  findall_from 0 code.

(** One turn of the loop of [_parse_macro_params]. *)
Definition parse_macro_param (params : gmap string string) (param : string)
  : gmap string string :=
  let param := strip param in
  if has_char "=" param then
    let '(key, value) := split1 "=" param in
    <[strip key := strip value]> params
  else params.

Definition _parse_macro_params (params_str : string) : gmap string string :=
  if String.eqb params_str "" then ∅
  else foldl parse_macro_param ∅ (split "," params_str).

(** [_process_single_code] *)
Definition _process_single_code (self : t) (code : string) : pyval * t :=
  let '(result, squad) :=
    EnhancedAgentSquad.process_jump_code (agent_squad self) code in
  (result, mk squad (sequential self) (macros self)).




End JumpCodeMiddleware.

(** [expand_macro] once for each valuation of the list, in turn; the
    first exception ends it. *)
Fixpoint expand_each (self : JumpCodeMacros.t) (name : string)
    (valuations : list (gmap string string)) : result JumpCodeMacros.t :=
  match valuations with
  | [] => Ok self
  | params :: valuations' =>
      match JumpCodeMacros.expand_macro self name params with
      | Ok (_, self') => expand_each self' name valuations'
      | Raise e => Raise e
      end
  end.

(** The key and the value that one token of a macro call
    [!name(k1=v1, ...)] contributes; a token without [=] contributes
    nothing. *)
Definition macro_token_key (token : string) : string :=
  PyStr.strip (PyStr.split1 "=" (PyStr.strip token)).1.

Definition macro_token_value (token : string) : string :=
  PyStr.strip (PyStr.split1 "=" (PyStr.strip token)).2.

(** ** enhanced_jump_codes.py: the synchronous entry points *)

Module EnhancedBatch.

Import EnhancedJumpCodeProcessor.

(** [execute]: [asyncio.run(self.execute_async(code))] *)
Definition execute (fuel : nat) (re_match : string -> string -> bool)
    (self : t) (code : string) : option (result JumpCodeResult * t) :=
  execute_async fuel re_match self code.

(** The loop of [execute_sequential], from the results so far. *)
Fixpoint sequential_loop (fuel : nat) (re_match : string -> string -> bool)
    (self : t) (codes : list string) (results : list JumpCodeResult)
  : option (result (list JumpCodeResult) * t) :=
  match codes with
  | [] => Some (Ok results, self)
  | code :: codes' =>
      match execute fuel re_match self code with
      | None => None
      | Some (Raise e, self') => Some (Raise e, self')
      | Some (Ok result, self') =>
          let results := (results ++ [result])%list in
          if negb (success_of result) then Some (Ok results, self')
          else sequential_loop fuel re_match self' codes' results
      end
  end.

Definition execute_sequential (fuel : nat) (re_match : string -> string -> bool)
    (self : t) (codes : list string)
  : option (result (list JumpCodeResult) * t) :=
  sequential_loop fuel re_match self codes [].

(** The key and the value that one token of the parameter list
    contributes in [parse_jump_code]: a token without [=] is stored
    under the key [value]. *)
Definition token_key (token : string) : string :=
  if PyStr.has_char "=" token then PyStr.strip (PyStr.split1 "=" token).1
  else "value".

Definition token_value (token : string) : string :=
  if PyStr.has_char "=" token then PyStr.strip (PyStr.split1 "=" token).2
  else PyStr.strip token.

(** The data of a result is the value a handler returned. *)
Definition carries_handler_value (r : JumpCodeResult) : bool :=
  match r with
  | mk_result _ (Some (inl _)) _ => true
  | _ => false
  end.

End EnhancedBatch.

(** ** agent_squad_jump_integration.py: inline codes *)

Module SquadInput.

Import PyStr.

(** A match of [\{@([^}]+)\}] at the start of [s]: group 1. *)
Definition inline_at (s : string) : option string :=
  match s with
  | String "{" (String "@" s') =>
      let '(body, rest) := span (fun c => negb (Ascii.eqb c "}")) s' in
      if String.eqb body "" then None
      else match rest with
           | String "}" _ => Some body
           | _ => None
           end
  | _ => None
  end.

(** [re.findall(r'\{@([^}]+)\}', text)]; [skip] as in the other scans. *)
Fixpoint findall_from (skip : nat) (text : string) : list string :=
  match text with
  | "" => []
  | String c text' =>
      match skip with
      | S k => findall_from k text'
      | O =>
          match inline_at text with
          | Some body => body :: findall_from (String.length body + 2) text'
          | None => findall_from 0 text'
          end
      end
  end.

Definition findall_inline (text : string) : list string := findall_from 0 text.

(** The loop over the inline codes: each one is run as a command of its
    own, the squad's context passing from one to the next. *)
Fixpoint run_inline (self : EnhancedAgentSquad.t) (matches : list string)
  : list pyval * EnhancedAgentSquad.t :=
  match matches with
  | [] => ([], self)
  | m :: matches' =>
      let '(result, self) :=
        EnhancedAgentSquad.process_jump_code self ("@" +:+ m) in
      let '(results, self) := run_inline self matches' in
      (result :: results, self)
  end.

(** [process_input_with_jump_codes]; [None] is Python's [None]. *)
Definition process_input_with_jump_codes (self : EnhancedAgentSquad.t)
    (user_input : string) : option pyval * EnhancedAgentSquad.t :=
  if startswith "@" user_input then
    let '(result, self) := EnhancedAgentSquad.process_jump_code self user_input in
    (Some result, self)
  else
    match findall_inline user_input with
    | [] => (None, self)
    | matches =>
        let '(results, self) := run_inline self matches in
        (Some (VDict (<["type" := VStr "inline_codes"]>
                     (<["results" := VList results]>
                     (<["original_input" := VStr user_input]> ∅)))), self)
    end.

End SquadInput.

(** ** Further sample data *)

Module MoreSamples.

(** The sample command [echo] registered a second time, with another
    alias. *)
Definition jc_echo_again : JumpCode.t :=
  JumpCode.mk "echo" "Return the parameters" Samples.echo ∅ ["ec"] [].

(** A handler that returns what the context holds under [agent]. *)
Definition whois (context kwargs : gmap string pyval) : hreturn :=
  mk_hreturn (Ok (default VNone (context !! "agent"))) context.

Definition jc_whois : JumpCode.t :=
  JumpCode.mk "whois" "Return the agent of the context" whois ∅ [] [].

(** The sample registry with the command [whois] added. *)
Definition registry : JumpCodeRegistry.t :=
  JumpCodeRegistry.mk
    (<["whois" := jc_whois]> (JumpCodeRegistry.codes Samples.registry)) ∅.

(** A history that is never trimmed. *)
Definition unbounded : SequentialJumpCodes.t :=
  SequentialJumpCodes.mk Samples.registry [] 0.

Definition squad : EnhancedAgentSquad.t :=
  EnhancedAgentSquad.mk Samples.registry ∅.

(** [re.match] for patterns without special characters. *)
Definition literal_match (pattern code : string) : bool :=
  PyStr.startswith pattern code.

(** A processor without handlers and with two macros. *)
Definition processor : EnhancedJumpCodeProcessor.t :=
  EnhancedJumpCodeProcessor.mk
    (EnhancedJumpCodeProcessor.mk_registry [] ∅
       (<["empty" := []]> (<["m" := ["@empty"; "@nope"; "@empty"]]> ∅)) [])
    ∅.

End MoreSamples.

(** * Properties *)

#[local] Open Scope list_scope.
#[local] Open Scope nat_scope.

(** ** Registry: aliases *)

Section RegistryAliases.

Import JumpCodeRegistry.

Lemma lookup_foldl_insert (target : string) (l : list string)
    (al : gmap string string) (k : string) :
  foldl (fun al alias => <[alias := target]> al) al l !! k
  = if bool_decide (k ∈ l) then Some target else al !! k.
Proof.
  revert al. induction l as [|a l IH]; intros al.
  - simpl. destruct (bool_decide_reflect (k ∈ [])) as [H|H];
      [by apply elem_of_nil in H | done].
  - simpl. rewrite IH.
    destruct (bool_decide_reflect (k ∈ l)) as [Hl|Hl],
             (bool_decide_reflect (k ∈ a :: l)) as [Hal|Hal]; try done.
    + exfalso. apply Hal. by right.
    + apply elem_of_cons in Hal as [->|?]; [|done]. by rewrite lookup_insert_eq.
    + rewrite lookup_insert_ne; [done|]. intros ->. apply Hal. by left.
Qed.

Lemma lookup_foldl_delete (l : list string) (al : gmap string string)
    (k : string) :
  foldl (fun al alias => delete alias al) al l !! k
  = if bool_decide (k ∈ l) then None else al !! k.
Proof.
  revert al. induction l as [|a l IH]; intros al.
  - simpl. destruct (bool_decide_reflect (k ∈ [])) as [H|H];
      [by apply elem_of_nil in H | done].
  - simpl. rewrite IH.
    destruct (bool_decide_reflect (k ∈ l)) as [Hl|Hl],
             (bool_decide_reflect (k ∈ a :: l)) as [Hal|Hal]; try done.
    + exfalso. apply Hal. by right.
    + apply elem_of_cons in Hal as [->|?]; [|done]. by rewrite lookup_delete_eq.
    + rewrite lookup_delete_ne; [done|]. intros ->. apply Hal. by left.
Qed.

(** Whatever an alias of the removed command is bound to, it is gone
    afterwards. *)
Lemma unregister_drops_listed_alias (self : t) (code alias : string)
    (jump_code : JumpCode.t) :
  codes self !! code = Some jump_code ->
  alias ∈ JumpCode.aliases jump_code ->
  aliases (unregister self code).2 !! alias = None.
Proof.
  intros Hc Hin. unfold unregister. rewrite Hc. simpl.
  rewrite lookup_foldl_delete. by rewrite bool_decide_eq_true_2.
Qed.

(** C10: when command [a] lists the alias [x] and a later registration of
    a different command [b] binds [x] to [b], unregistering [a] deletes
    [x] from the alias table although [x] resolved to [b], and [b] itself
    stays registered. *)
Theorem unregister_deletes_rebound_alias (r0 : t) (a b : JumpCode.t) (x : string) :
  PyStr.is_identifier (JumpCode.code a) = true ->
  PyStr.is_identifier (JumpCode.code b) = true ->
  JumpCode.code a ≠ JumpCode.code b ->
  x ∈ JumpCode.aliases a ->
  x ∈ JumpCode.aliases b ->
  ∃ r1 r2,
    register r0 a = Ok r1 ∧ register r1 b = Ok r2 ∧
    aliases r2 !! x = Some (JumpCode.code b) ∧
    resolve r2 x = JumpCode.code b ∧
    (unregister r2 (JumpCode.code a)).1 = true ∧
    aliases (unregister r2 (JumpCode.code a)).2 !! x = None ∧
    codes (unregister r2 (JumpCode.code a)).2 !! JumpCode.code b = Some b.
Proof.
  intros Ha Hb Hne Hxa Hxb. unfold register. rewrite Ha, Hb. simpl.
  eexists _, _. split; [reflexivity|]. split; [reflexivity|].
  assert (Hx : foldl (fun al alias => <[alias := JumpCode.code b]> al)
                 (foldl (fun al alias => <[alias := JumpCode.code a]> al)
                    (aliases r0) (JumpCode.aliases a))
                 (JumpCode.aliases b) !! x = Some (JumpCode.code b)).
  { rewrite lookup_foldl_insert. by rewrite bool_decide_eq_true_2. }
  split; [exact Hx|].
  split; [unfold resolve; simpl; by rewrite Hx|].
  unfold unregister. simpl.
  rewrite lookup_insert_ne by done. rewrite lookup_insert_eq. simpl.
  split; [done|]. split.
  - rewrite lookup_foldl_delete. by rewrite bool_decide_eq_true_2.
  - rewrite lookup_delete_ne by done. by rewrite lookup_insert_eq.
Qed.

End RegistryAliases.

(** ** Sequential runs: the protected keys *)

Section ProtectedKeys.

Import SequentialJumpCodes.

(** What the merge loop leaves under each key. *)
Lemma lookup_merge_result (shared_context payload : gmap string pyval)
    (k : string) :
  merge_result shared_context payload !! k
  = if bool_decide (k ∈ protected_keys) then shared_context !! k
    else match payload !! k with
         | Some v => Some v
         | None => shared_context !! k
         end.
Proof.
  unfold merge_result.
  apply (map_fold_weak_ind
    (fun (r : gmap string pyval) (m : gmap string pyval) =>
       r !! k = if bool_decide (k ∈ protected_keys) then shared_context !! k
                else match m !! k with
                     | Some v => Some v
                     | None => shared_context !! k
                     end)).
  - rewrite lookup_empty. by destruct (bool_decide _).
  - intros i x m r Hi IH.
    destruct (decide (i = k)) as [->|Hne].
    + rewrite lookup_insert_eq.
      destruct (bool_decide_reflect (k ∈ protected_keys)) as [Hp|Hp].
      * exact IH.
      * by rewrite lookup_insert_eq.
    + rewrite (lookup_insert_ne m) by done.
      destruct (bool_decide (i ∈ protected_keys)); [exact IH|].
      by rewrite lookup_insert_ne.
Qed.

Lemma execute_keeps (registry : JumpCodeRegistry.t) (k code : string)
    (context : gmap string pyval) :
  handlers_keep registry k ->
  h_ctx (JumpCodeRegistry.execute registry code context) !! k = context !! k.
Proof.
  intros Hk. unfold JumpCodeRegistry.execute.
  destruct (JumpCodeRegistry._parse_jump_code code) as [p|e]; [|done].
  destruct (JumpCodeRegistry.codes registry !! _) as [jc|] eqn:Hjc; [|done].
  destruct (match JumpCode.context_required jc with
            | [] => Ok tt
            | _ => _
            end); [|done].
  by eapply Hk.
Qed.

Lemma run_steps_keeps_sequence_id (registry : JumpCodeRegistry.t) (clock : Clock)
    (total : nat) (todo : list string) :
  handlers_keep registry "sequence_id" ->
  ∀ i shared_context results,
    (run_steps registry clock total i todo shared_context results).2
      !! "sequence_id" = shared_context !! "sequence_id".
Proof.
  intros Hk. induction todo as [|code todo IH]; intros i ctx results; [done|].
  cbn [run_steps]. cbv zeta.
  assert (H1 : h_ctx (JumpCodeRegistry.execute registry code
                        (enter_step i results ctx)) !! "sequence_id"
               = ctx !! "sequence_id").
  { rewrite execute_keeps by done. unfold enter_step.
    rewrite lookup_insert_ne by done. by rewrite lookup_insert_ne. }
  destruct (h_out (JumpCodeRegistry.execute registry code _)) as [v|e].
  - rewrite IH. destruct v; try exact H1. unfold update_context.
    rewrite lookup_merge_result. by rewrite bool_decide_eq_true_2 by (by left).
  - destruct (_should_abort_sequence e i total); [exact H1|].
    by rewrite IH.
Qed.

(** C7: merging a step's dictionary result into the shared context leaves
    the value under each protected key (sequence_id, sequence_position,
    previous_results) as it was, whatever keys the result has; and in a
    run whose handlers do not write sequence_id themselves, the context
    ends with the sequence id it started with. *)
Theorem merge_never_overwrites_protected_keys :
  (∀ (shared_context payload : gmap string pyval) (k : string),
     k ∈ ["sequence_id"; "sequence_position"; "previous_results"] ->
     merge_result shared_context payload !! k = shared_context !! k) ∧
  (∀ registry clock total i todo shared_context results,
     handlers_keep registry "sequence_id" ->
     (run_steps registry clock total i todo shared_context results).2
       !! "sequence_id" = shared_context !! "sequence_id").
Proof.
  split.
  - intros ctx payload k Hk. rewrite lookup_merge_result.
    by rewrite bool_decide_eq_true_2.
  - intros. by apply run_steps_keeps_sequence_id.
Qed.

End ProtectedKeys.

(** ** Sequential runs: the bounded history *)

Section History.

Import SequentialJumpCodes.

Lemma length_last_n {A} (n : nat) (l : list A) :
  length (last_n n l) = min n (length l).
Proof. unfold last_n. rewrite length_drop. lia. Qed.

Lemma last_n_app_last_n {A} (n : nat) (a b : list A) :
  last_n n (last_n n a ++ b) = last_n n (a ++ b).
Proof.
  unfold last_n. rewrite !length_app, length_drop.
  destruct (decide (length a ≤ n)) as [Hle|Hgt].
  - replace (length a - n) with 0 by lia. simpl.
    by replace (length a - 0) with (length a) by lia.
  - replace (length a - (length a - n) + length b - n) with (length b) by lia.
    replace (length a + length b - n) with ((length a - n) + length b) by lia.
    rewrite <- drop_drop. by rewrite (drop_app_le a b (length a - n)) by lia.
Qed.

Lemma _add_to_memory_spec (self : t) (record : SequenceRecord.t) :
  (0 < max_memory_size self)%Z ->
  sequence_memory (_add_to_memory self record)
  = last_n (Z.to_nat (max_memory_size self)) (sequence_memory self ++ [record])
  ∧ max_memory_size (_add_to_memory self record) = max_memory_size self.
Proof.
  intros Hpos. unfold _add_to_memory, last_n, slice_from.
  destruct (Z.ltb_spec (max_memory_size self)
              (Z.of_nat (length (sequence_memory self ++ [record])))) as [Hlt|Hge];
    simpl; (split; [|done]).
  - destruct (Z.ltb_spec (- max_memory_size self) 0); [|lia].
    f_equal. lia.
  - replace (length (sequence_memory self ++ [record])
             - Z.to_nat (max_memory_size self)) with 0 by lia.
    done.
Qed.

Lemma foldl_add_to_memory (l : list SequenceRecord.t) (self : t) :
  (0 < max_memory_size self)%Z ->
  length (sequence_memory self) ≤ Z.to_nat (max_memory_size self) ->
  sequence_memory (foldl _add_to_memory self l)
  = last_n (Z.to_nat (max_memory_size self)) (sequence_memory self ++ l)
  ∧ max_memory_size (foldl _add_to_memory self l) = max_memory_size self.
Proof.
  revert self. induction l as [|r l IH]; intros self Hpos Hlen.
  - simpl. rewrite app_nil_r. split; [|done].
    unfold last_n. by replace (_ - _) with 0 by lia.
  - simpl. destruct (_add_to_memory_spec self r Hpos) as [Hm Hc].
    destruct (IH (_add_to_memory self r)) as [Hm' Hc'].
    + by rewrite Hc.
    + rewrite Hm, Hc, length_last_n. lia.
    + rewrite Hm', Hc', Hc, Hm. split; [|done].
      rewrite last_n_app_last_n. by rewrite <- app_assoc.
Qed.

(** C8: appending records to the sequence history never leaves more than
    [max_memory_size] of them; the history is always the most recent
    records in insertion order, so the oldest go first; and appending
    capacity + 5 records to an empty history leaves exactly the last
    capacity of them. *)
Theorem history_bounded_oldest_evicted_first (self : t)
    (l : list SequenceRecord.t) :
  (0 < max_memory_size self)%Z ->
  length (sequence_memory self) ≤ Z.to_nat (max_memory_size self) ->
  let capacity := Z.to_nat (max_memory_size self) in
  let final := foldl _add_to_memory self l in
  length (sequence_memory final) ≤ capacity ∧
  sequence_memory final = last_n capacity (sequence_memory self ++ l) ∧
  (sequence_memory self = [] -> length l = capacity + 5 ->
   sequence_memory final = drop 5 l ∧ length (sequence_memory final) = capacity).
Proof.
  intros Hpos Hlen capacity final.
  destruct (foldl_add_to_memory l self Hpos Hlen) as [Hm _].
  fold final capacity in Hm. rewrite Hm. split; [|split].
  - rewrite length_last_n. lia.
  - done.
  - intros Hnil Hl. rewrite Hnil. simpl. unfold last_n. rewrite Hl.
    replace (capacity + 5 - capacity) with 5 by lia.
    split; [done|]. rewrite length_drop. lia.
Qed.

End History.

(** ** Registry: exceptions of handlers *)

Section HandlerErrors.

Import JumpCodeRegistry.

Lemma _validate_context_ok (required : list string)
    (context : gmap string pyval) :
  (∀ key, key ∈ required -> is_Some (context !! key)) ->
  _validate_context required context = Ok tt.
Proof.
  intros Hall. unfold _validate_context.
  assert (Hnil : filter (fun key => context !! key = None) required = []).
  { induction required as [|k l IH]; [done|].
    rewrite filter_cons. destruct (decide (context !! k = None)) as [Hk|Hk].
    - destruct (Hall k) as [v Hv]; [by left|]. congruence.
    - apply IH. intros key Hkey. apply Hall. by right. }
  by rewrite Hnil.
Qed.

Lemma execute_handler_raises (self : t) (code_string : string)
    (context : gmap string pyval) (e : exn) (context' : gmap string pyval) :
  handler_raises self code_string context e context' ->
  execute self code_string context = mk_hreturn (Raise e) context'.
Proof.
  intros (p & jc & Hp & Hjc & Hreq & Hh). unfold execute.
  rewrite Hp, Hjc.
  destruct (JumpCode.context_required jc) as [|k l] eqn:Hl; [exact Hh|].
  rewrite _validate_context_ok by done. exact Hh.
Qed.

(** C1 (as the code has it): when the resolved handler raises, [execute]
    raises the same exception, class and message unchanged, instead of
    returning a result; the caller [process_jump_code] is the one that
    catches it and returns an error dictionary carrying the message. *)
Theorem execute_reraises_handler_exception (self : t) (code_string : string)
    (context : gmap string pyval) (e : exn) (context' : gmap string pyval) :
  handler_raises self code_string context e context' ->
  execute self code_string context = mk_hreturn (Raise e) context' ∧
  EnhancedAgentSquad.process_jump_code
    (EnhancedAgentSquad.mk self context) code_string
  = (VDict (<["error" := VBool true]>
           (<["message" := VStr ("Jump code error: " +:+ exn_str e)]>
           (<["code" := VStr code_string]> ∅))),
     EnhancedAgentSquad.mk self context').
Proof.
  intros H. apply execute_handler_raises in H. split; [exact H|].
  unfold EnhancedAgentSquad.process_jump_code. simpl. by rewrite H.
Qed.

Lemma sample_boom_raises :
  handler_raises Samples.registry "@boom" ∅ (PyExn "RuntimeError" "boom") ∅.
Proof.
  exists (mk_parsed "boom" ∅), Samples.jc_boom.
  split; [reflexivity|]. split; [reflexivity|]. split; [|reflexivity].
  intros key Hkey. by apply elem_of_nil in Hkey.
Defined.

Lemma execute_reraises_handler_exception_witness :
  handler_raises Samples.registry "@boom" ∅ (PyExn "RuntimeError" "boom") ∅ ∧
  execute Samples.registry "@boom" ∅
  = mk_hreturn (Raise (PyExn "RuntimeError" "boom")) ∅ ∧
  EnhancedAgentSquad.process_jump_code
    (EnhancedAgentSquad.mk Samples.registry ∅) "@boom"
  = (VDict (<["error" := VBool true]>
           (<["message" := VStr "Jump code error: boom"]>
           (<["code" := VStr "@boom"]> ∅))),
     EnhancedAgentSquad.mk Samples.registry ∅).
Proof.
  split; [exact sample_boom_raises|].
  exact (execute_reraises_handler_exception Samples.registry "@boom" ∅
           (PyExn "RuntimeError" "boom") ∅ sample_boom_raises).
Defined.

(** C1, the claim as stated, fails: the handler of "@boom" raises and
    [execute] hands the exception on to its caller; no result comes
    back. *)
Lemma execute_does_not_catch :
  handler_raises Samples.registry "@boom" ∅ (PyExn "RuntimeError" "boom") ∅ ∧
  h_out (execute Samples.registry "@boom" ∅) = Raise (PyExn "RuntimeError" "boom") ∧
  ¬ execute_catches_handler_exceptions.
Proof.
  split; [exact sample_boom_raises|]. split; [reflexivity|].
  intros H. destruct (H _ _ _ _ _ sample_boom_raises) as [v Hv].
  vm_compute in Hv. discriminate.
Qed.

(** The asynchronous processor of enhanced_jump_codes.py has an [except]
    clause that is meant to turn the exception into a failed result, but
    the attempt log it writes first does not exist on the processor:
    once a handler is found, every call ends in [AttributeError]. *)
Lemma execute_async_ends_in_attribute_error (fuel : nat)
    (re_match : string -> string -> bool) (self : EnhancedJumpCodeProcessor.t)
    (code : string) (parsed : EnhancedJumpCodeProcessor.parsed)
    (handler : gmap string string -> gmap string pyval -> hreturn) :
  EnhancedJumpCodeProcessor.parse_jump_code code = Ok parsed ->
  EnhancedJumpCodeProcessor.get_handler re_match
    (EnhancedJumpCodeProcessor.registry self)
    ("@" +:+ EnhancedJumpCodeProcessor.name parsed) = Some handler ->
  EnhancedJumpCodeProcessor.execute_async (S fuel) re_match self code
  = Some (Raise EnhancedJumpCodeProcessor.no_execution_history,
          EnhancedJumpCodeProcessor.mk (EnhancedJumpCodeProcessor.registry self)
            (h_ctx (handler (EnhancedJumpCodeProcessor.params parsed)
                            (EnhancedJumpCodeProcessor.context self)))).
Proof.
  intros Hp Hh. cbn [EnhancedJumpCodeProcessor.execute_async].
  by rewrite Hp, Hh.
Qed.

End HandlerErrors.

(** ** Parallel batches: the deadline *)

Section ParallelDeadline.

Import EnhancedAgentSquad.

Lemma collect_without_fail_fast ys :
  ∀ results failed, (collect false ys results failed).2 = false.
Proof.
  induction ys as [|[task [r|e]] ys IH]; intros results failed; simpl; auto.
Qed.

(** C5 (as the code has it): when the deadline expires while the loop is
    still waiting for a future, [_parallel_handler] answers with one
    batch-level error dictionary that names the timeout; it has no
    [results] entry, so no outcome of a task, completed or not, is
    reported.  Without fail-fast the loop is always still waiting. *)
Theorem deadline_discards_all_outcomes (tasks : string) (timeout : Z)
    (fail_fast : bool) (sched : completions) :
  task_list_of tasks ≠ [] ->
  expired sched = true ->
  fail_fast = false ∨ (collect fail_fast (yielded sched) ∅ false).2 = false ->
  _parallel_handler tasks timeout fail_fast sched
  = error_dict ("Parallel execution timed out after " +:+ pretty timeout
                +:+ " seconds") ∧
  _parallel_handler tasks timeout fail_fast sched !! "results" = None.
Proof.
  intros Htasks Hexp Hloop.
  assert (Hbroke : (collect fail_fast (yielded sched) ∅ false).2 = false).
  { destruct Hloop as [-> | H]; [apply collect_without_fail_fast | exact H]. }
  assert (Heq : _parallel_handler tasks timeout fail_fast sched
                = error_dict ("Parallel execution timed out after "
                              +:+ pretty timeout +:+ " seconds")).
  { unfold _parallel_handler.
    destruct (task_list_of tasks) as [|t l]; [done|].
    destruct (collect fail_fast (yielded sched) ∅ false) as [[results failed] broke].
    simpl in Hbroke. by rewrite Hbroke, Hexp. }
  split; [exact Heq|]. rewrite Heq. reflexivity.
Qed.

Lemma deadline_discards_all_outcomes_witness :
  (task_list_of "a;b" ≠ [] ∧
   expired (mk_completions [("a", Ok (<["ok" := VBool true]> ∅))] true) = true ∧
   (false = false ∨
    (collect false (yielded (mk_completions [("a", Ok (<["ok" := VBool true]> ∅))] true))
       ∅ false).2 = false)) ∧
  _parallel_handler "a;b" 300 false
    (mk_completions [("a", Ok (<["ok" := VBool true]> ∅))] true)
  = error_dict "Parallel execution timed out after 300 seconds" ∧
  _parallel_handler "a;b" 300 false
    (mk_completions [("a", Ok (<["ok" := VBool true]> ∅))] true) !! "results" = None.
Proof.
  assert (H1 : task_list_of "a;b" ≠ []) by (vm_compute; discriminate).
  split; [split; [exact H1 | split; [reflexivity | left; reflexivity]]|].
  exact (deadline_discards_all_outcomes "a;b" 300 false
           (mk_completions [("a", Ok (<["ok" := VBool true]> ∅))] true)
           H1 eq_refl (or_introl eq_refl)).
Defined.

(** C5, the claim as stated, fails: of the batch "a;b", task a completes
    and returns a dictionary, b is still running at the deadline; the
    answer holds neither a's outcome nor an entry for b. *)
Lemma deadline_loses_completed_task :
  expired (mk_completions [("a", Ok (<["ok" := VBool true]> ∅))] true) = true ∧
  ("a", Ok (<["ok" := VBool true]> ∅))
    ∈ yielded (mk_completions [("a", Ok (<["ok" := VBool true]> ∅))] true) ∧
  _parallel_handler "a;b" 300 false
    (mk_completions [("a", Ok (<["ok" := VBool true]> ∅))] true) !! "results" = None ∧
  ¬ timeout_keeps_completed_outcomes.
Proof.
  split; [reflexivity|]. split; [by left|]. split; [reflexivity|].
  intros H.
  destruct (H "a;b" 300%Z false
              (mk_completions [("a", Ok (<["ok" := VBool true]> ∅))] true) eq_refl)
    as (results & Hres & _).
  vm_compute in Hres. discriminate.
Qed.

End ParallelDeadline.

(** ** Strings *)

Section StringFacts.

Import PyStr.

Lemma app_cons (c : ascii) (s t : string) :
  String c s +:+ t = String c (s +:+ t).
Proof. reflexivity. Qed.

Lemma app_empty_l (s : string) : "" +:+ s = s.
Proof. reflexivity. Qed.

Lemma app_empty_r (s : string) : s +:+ "" = s.
Proof. induction s as [|c s IH]; [done|]. by rewrite app_cons, IH. Qed.

Lemma app_assoc_s (a b c : string) : (a +:+ b) +:+ c = a +:+ (b +:+ c).
Proof. induction a as [|x a IH]; [done|]. by rewrite !app_cons, IH. Qed.

Lemma eqb_empty_false (s : string) : s ≠ "" -> String.eqb s "" = false.
Proof. intros H. by apply String.eqb_neq. Qed.


Lemma has_char_app (c : ascii) (a b : string) :
  has_char c (a +:+ b) = has_char c a || has_char c b.
Proof.
  induction a as [|d a IH]; [done|].
  rewrite app_cons. simpl. rewrite IH. by rewrite orb_assoc.
Qed.

(** [span] splits the string, its first part satisfies [p] and the rest
    does not start with a character that does. *)
Lemma span_spec (p : ascii -> bool) (s : string) :
  ∀ a b, span p s = (a, b) ->
    s = a +:+ b ∧ all p a = true ∧
    match b with "" => True | String c _ => p c = false end.
Proof.
  induction s as [|c s IH]; intros a b H; simpl in H.
  - by inversion H.
  - destruct (p c) eqn:Hc.
    + destruct (span p s) as [a' b'] eqn:Hs. inversion H; subst.
      destruct (IH a' b eq_refl) as (-> & Ha & Hb).
      rewrite app_cons. simpl. rewrite Hc, Ha. done.
    + inversion H; subst. by rewrite Hc.
Qed.

Lemma span_app (p : ascii -> bool) (a b : string) :
  all p a = true ->
  match b with "" => True | String c _ => p c = false end ->
  span p (a +:+ b) = (a, b).
Proof.
  intros Ha Hb. induction a as [|c a IH].
  - rewrite app_empty_l. destruct b as [|c b]; [done|]. simpl. by rewrite Hb.
  - simpl in Ha. apply andb_prop in Ha as [Hc Ha].
    rewrite app_cons. simpl. rewrite Hc, (IH Ha). done.
Qed.

Lemma all_not_newline (p : string) :
  all (fun x => negb (Ascii.eqb x newline)) p = negb (has_char newline p).
Proof.
  induction p as [|c p IH]; [done|]. cbn [all has_char]. rewrite IH.
  rewrite (Ascii.eqb_sym newline c). by rewrite negb_orb.
Qed.

Lemma length_app_s (a b : string) :
  String.length (a +:+ b) = String.length a + String.length b.
Proof.
  induction a as [|c a IH]; [done|]. rewrite app_cons. simpl. by rewrite IH.
Qed.

End StringFacts.

(** ** Parser: type coercion of parameter values *)

Section Coercion.

Import PyStr JumpCodeRegistry.

Lemma lstrip_app_sep (k : string) (c : ascii) (v : string) :
  is_space c = false ->
  lstrip (k +:+ String c v) = lstrip k +:+ String c v.
Proof.
  intros Hc. induction k as [|d k IH].
  - rewrite app_empty_l. simpl. by rewrite Hc.
  - rewrite app_cons. simpl. destruct (is_space d); [exact IH|done].
Qed.

Lemma rstrip_app_sep (a : string) (c : ascii) (v : string) :
  is_space c = false ->
  rstrip (a +:+ String c v) = a +:+ String c (rstrip v).
Proof.
  intros Hc. induction a as [|d a IH].
  - rewrite !app_empty_l. simpl. rewrite Hc. by rewrite andb_false_r.
  - rewrite !app_cons. simpl. rewrite IH.
    destruct a; by rewrite ?app_cons.
Qed.

Lemma lstrip_idemp (s : string) : lstrip (lstrip s) = lstrip s.
Proof.
  induction s as [|c s IH]; [done|]. simpl.
  destruct (is_space c) eqn:Hc; [exact IH|]. simpl. by rewrite Hc.
Qed.

Lemma rstrip_idemp (s : string) : rstrip (rstrip s) = rstrip s.
Proof.
  induction s as [|c s IH]; [done|]. simpl.
  destruct (String.eqb (rstrip s) "" && is_space c) eqn:Hc; [done|].
  simpl. by rewrite IH, Hc.
Qed.

Lemma rstrip_empty_lstrip (s : string) : rstrip s = "" -> lstrip s = "".
Proof.
  induction s as [|c s IH]; [done|]. simpl.
  destruct (String.eqb (rstrip s) "" && is_space c) eqn:Hc; [|done].
  apply andb_prop in Hc as [Hr Hc]. apply String.eqb_eq in Hr.
  rewrite Hc. auto.
Qed.

Lemma lstrip_rstrip (s : string) : lstrip (rstrip s) = rstrip (lstrip s).
Proof.
  induction s as [|c s IH]; [done|]. simpl.
  destruct (is_space c) eqn:Hc.
  - rewrite andb_true_r. destruct (String.eqb (rstrip s) "") eqn:Hr.
    + apply String.eqb_eq in Hr. by rewrite (rstrip_empty_lstrip s Hr).
    + simpl. by rewrite Hc.
  - rewrite andb_false_r. simpl. by rewrite Hc, andb_false_r.
Qed.

Lemma strip_lstrip (s : string) : strip (lstrip s) = strip s.
Proof. unfold strip. by rewrite lstrip_idemp. Qed.

Lemma strip_rstrip (s : string) : strip (rstrip s) = strip s.
Proof. unfold strip. by rewrite lstrip_rstrip, rstrip_idemp. Qed.

Lemma has_char_lstrip (c : ascii) (s : string) :
  has_char c s = false -> has_char c (lstrip s) = false.
Proof.
  induction s as [|d s IH]; [done|]. simpl. intros H.
  apply orb_false_elim in H as [Hd Hs].
  destruct (is_space d); [auto|]. simpl. by rewrite Hd, Hs.
Qed.



Lemma split1_app (c : ascii) (a b : string) :
  has_char c a = false -> split1 c (a +:+ String c b) = (a, b).
Proof.
  intros Ha. induction a as [|d a IH].
  - rewrite app_empty_l. simpl. by rewrite Ascii.eqb_refl.
  - simpl in Ha. apply orb_false_elim in Ha as [Hd Ha].
    rewrite app_cons. simpl. rewrite (Ascii.eqb_sym d c), Hd. by rewrite IH.
Qed.

Lemma split_no_sep (c : ascii) (s : string) :
  has_char c s = false -> split c s = [s].
Proof.
  induction s as [|d s IH]; [done|]. simpl. intros H.
  apply orb_false_elim in H as [Hd Hs].
  rewrite (Ascii.eqb_sym d c), Hd. by rewrite IH.
Qed.













Lemma int_of_digits_under (v : string) :
  String.length v ≤ int_max_str_digits ->
  int_of_digits v = Ok (VInt (Z.of_N (int_of v))).
Proof.
  intros H. unfold int_of_digits.
  by destruct (Nat.ltb_spec int_max_str_digits (String.length v)); [lia|].
Qed.





Lemma strip_token (k v : string) :
  strip (k +:+ "=" +:+ v) = lstrip k +:+ "=" +:+ rstrip v.
Proof.
  unfold strip. change ("=" +:+ v) with (String "=" v).
  rewrite lstrip_app_sep by reflexivity.
  by rewrite rstrip_app_sep by reflexivity.
Qed.

Lemma split_app_sep (c : ascii) (s r : string) :
  has_char c s = false -> split c (s +:+ String c r) = s :: split c r.
Proof.
  intros Hs. induction s as [|d s IH].
  - rewrite app_empty_l. cbn [split]. by rewrite Ascii.eqb_refl.
  - cbn [has_char] in Hs. apply orb_false_elim in Hs as [Hd Hs].
    rewrite app_cons. cbn [split]. rewrite (Ascii.eqb_sym d c), Hd.
    by rewrite (IH Hs).
Qed.

Lemma split_join (tokens : list string) :
  tokens ≠ [] ->
  Forall (fun token => has_char "," token = false) tokens ->
  split "," (join "," tokens) = tokens.
Proof.
  induction tokens as [|s l IH]; [done|]. intros _ Hall.
  apply Forall_cons in Hall as [Hs Hl].
  destruct l as [|s' l]; [by apply split_no_sep|].
  change (join "," (s :: s' :: l)) with (s +:+ String "," (join "," (s' :: l))).
  rewrite split_app_sep by done. by rewrite IH.
Qed.

Lemma has_char_join (c : ascii) (tokens : list string) :
  Ascii.eqb c "," = false ->
  Forall (fun token => has_char c token = false) tokens ->
  has_char c (join "," tokens) = false.
Proof.
  intros Hc. induction tokens as [|s l IH]; [done|]. intros Hall.
  apply Forall_cons in Hall as [Hs Hl].
  destruct l as [|s' l]; [done|].
  change (join "," (s :: s' :: l)) with (s +:+ String "," (join "," (s' :: l))).
  rewrite has_char_app, Hs. cbn [has_char orb]. by rewrite Hc, IH.
Qed.

(** [_parse_jump_code] by the two stages it has: the match of the
    pattern and the loop over the parameter tokens. *)
Lemma _parse_jump_code_unfold (s : string) :
  _parse_jump_code s
  = match match_code (strip_sigil s) with
    | None => Raise (ValueError ("Invalid jump code format: " +:+ strip_sigil s))
    | Some (code, group2) =>
        parameters ← (if String.eqb (default "" group2) "" then Ok ∅
                      else parse_params ∅ (split "," (default "" group2)));
        Ok (mk_parsed code parameters)
    end.
Proof.
  unfold _parse_jump_code, strip_sigil.
  destruct s as [|[[] [] [] [] [] [] [] []] s']; reflexivity.
Qed.













End Coercion.

(** ** Parser: which inputs are accepted *)

Section ParserAccepts.

Import PyStr JumpCodeRegistry.













(** The parsing examples of the specification. *)
Example parse_status :
  _parse_jump_code "@status" = Ok (mk_parsed "status" ∅).
Proof. reflexivity. Qed.

Example parse_create_agent :
  _parse_jump_code "@create_agent:role=dev,goal=write code"
  = Ok (mk_parsed "create_agent"
          (<["role" := VStr "dev"]> (<["goal" := VStr "write code"]> ∅))).
Proof. vm_compute. reflexivity. Qed.

Example parse_typed_parameters :
  _parse_jump_code "@x:flag=true,count=3,ratio=1.5,name=foo"
  = Ok (mk_parsed "x"
          (<["flag" := VBool true]> (<["count" := VInt 3]>
          (<["ratio" := VFloat 15 1]> (<["name" := VStr "foo"]> ∅))))).
Proof. vm_compute. reflexivity. Qed.

(** The truth words are read in any mix of letter cases. *)
Example parse_truth_words :
  _parse_jump_code "@x:on=TRUE,off=False,word=Truely"
  = Ok (mk_parsed "x"
          (<["on" := VBool true]> (<["off" := VBool false]>
          (<["word" := VStr "Truely"]> ∅)))).
Proof. vm_compute. reflexivity. Qed.

(** A value of 4301 digits: the conversion to an integer fails, and the
    parse with it. *)
Example parse_long_digits :
  String.length long_digits = 4301 ∧
  _parse_jump_code ("@x:n=" +:+ long_digits) = Raise (int_limit_error 4301).
Proof. split; vm_compute; reflexivity. Qed.


End ParserAccepts.

(** ** Sequential runs: the abort policy *)

Section AbortPolicy.

Import PyStr SequentialJumpCodes.




Lemma _should_abort_sequence_spec (e : exn) (position total : nat) :
  _should_abort_sequence e position total = has_critical_text (exn_str e).
Proof.
  unfold _should_abort_sequence, has_critical_text.
  destruct (existsb _ _); [done|]. by destruct (_ =? _).
Qed.








Lemma run_steps_extends (registry : JumpCodeRegistry.t) (clock : Clock)
    (total : nat) (todo : list string) :
  ∀ i context results,
    ∃ new, (run_steps registry clock total i todo context results).1
           = results ++ new ∧
           length new ≤ length todo ∧ (todo ≠ [] -> new ≠ []).
Proof.
  induction todo as [|code todo IH]; intros i ctx results.
  - exists []. simpl. by rewrite app_nil_r.
  - cbn [run_steps]. cbv zeta.
    set (r := JumpCodeRegistry.execute registry code _).
    destruct (h_out r) as [v|e].
    + destruct (IH (S i) (update_context (h_ctx r) v)
                  (results ++ [ok_step clock code i v]))
        as (new & Hrs & Hlen & _).
      rewrite Hrs. eexists (_ :: new). rewrite <- app_assoc.
      split; [done|]. simpl. split; [lia|done].
    + destruct (_should_abort_sequence e i total).
      * eexists [_]. simpl. split; [done|]. split; [lia|done].
      * destruct (IH (S i) (h_ctx r) (results ++ [failed_step clock code i e]))
          as (new & Hrs & Hlen & _).
        rewrite Hrs. eexists (_ :: new). rewrite <- app_assoc.
        split; [done|]. simpl. split; [lia|done].
Qed.

Lemma lookup_app_snoc {A} (l : list A) (x : A) (new : list A) :
  ((l ++ [x]) ++ new) !! length l = Some x.
Proof.
  rewrite <- app_assoc. rewrite lookup_app_r by lia.
  by replace (length l - length l) with 0 by lia.
Qed.


Lemma _add_to_memory_last (self : t) (record : SequenceRecord.t) :
  (0 ≤ max_memory_size self)%Z ->
  last (sequence_memory (_add_to_memory self record)) = Some record.
Proof.
  intros Hmax. unfold _add_to_memory.
  destruct (Z.ltb_spec (max_memory_size self)
              (Z.of_nat (length (sequence_memory self ++ [record])))) as [Hlt|Hge];
    cbn [sequence_memory]; [|by rewrite last_snoc].
  unfold slice_from. rewrite length_app in Hlt |- *. cbn [length] in Hlt |- *.
  destruct (Z.ltb_spec (- max_memory_size self) 0).
  - rewrite last_lookup, length_drop, lookup_drop, length_app. cbn [length].
    replace (_ + _) with (length (sequence_memory self)) by lia.
    rewrite lookup_app_r by lia.
    by replace (_ - _) with 0 by lia.
  - replace (Z.to_nat (- max_memory_size self)) with 0 by lia.
    rewrite drop_0. by rewrite last_snoc.
Qed.



(** The two runs of the abort example: the second of three commands is
    unknown, or its handler fails with the message "boom". *)
Example run_with_unknown_command :
  run_summary (execute_sequence (init Samples.registry) Samples.clock
                 ["@echo"; "@nope"; "@echo"]) = Some (2, [false]).
Proof. vm_compute. reflexivity. Qed.

Example run_with_plain_handler_error :
  run_summary (execute_sequence (init Samples.registry) Samples.clock
                 ["@echo"; "@boom"; "@echo"]) = Some (3, [true]).
Proof. vm_compute. reflexivity. Qed.

(** A run whose second command has a value of 4301 digits: the parser
    fails in the integer conversion, and the run goes on. *)
Example run_with_long_digits :
  run_summary (execute_sequence (init Samples.registry) Samples.clock
                 ["@echo"; "@echo:n=" +:+ long_digits; "@echo"])
  = Some (3, [true]).
Proof. vm_compute. reflexivity. Qed.


End AbortPolicy.

(** ** Macros: expansion *)

Section MacroExpansion.

Import PyStr JumpCodeMacros.

Lemma sub_from_skip (params : gmap string string) (a b : string) :
  sub_from params (String.length a) (a +:+ b) = sub_from params 0 b.
Proof.
  induction a as [|c a IH]; [by destruct b|].
  rewrite app_cons. exact IH.
Qed.

Lemma placeholder_at_found (k rest : string) :
  k ≠ "" -> all is_word k = true ->
  placeholder_at ("${" +:+ k +:+ "}" +:+ rest) = Some k.
Proof.
  intros Hk Hw.
  change ("${" +:+ k +:+ "}" +:+ rest)
    with (String "$" (String "{" (k +:+ String "}" rest))).
  unfold placeholder_at.
  rewrite (span_app is_word k (String "}" rest)) by done.
  by rewrite eqb_empty_false.
Qed.


Lemma sub_from_literal (params : gmap string string) (c : ascii) (code : string) :
  placeholder_at (String c code) = None ->
  sub_from params 0 (String c code) = String c (sub_from params 0 code).
Proof. intros H. cbn [sub_from]. by rewrite H. Qed.

Lemma sub_from_placeholder (params : gmap string string) (k rest : string) :
  k ≠ "" -> all is_word k = true ->
  sub_from params 0 ("${" +:+ k +:+ "}" +:+ rest)
  = replacer params k +:+ sub_from params 0 rest.
Proof.
  intros Hk Hw. pose proof (placeholder_at_found k rest Hk Hw) as Hp.
  assert (E : "${" +:+ k +:+ "}" +:+ rest
              = String "$" (("{" +:+ k +:+ "}") +:+ rest)).
  { change (("{" +:+ k +:+ "}") +:+ rest)
      with (String "{" ((k +:+ "}") +:+ rest)).
    by rewrite app_assoc_s. }
  rewrite E in Hp |- *.
  cbn [sub_from]. rewrite Hp. f_equal.
  replace (String.length k + 2) with (String.length ("{" +:+ k +:+ "}")).
  - apply sub_from_skip.
  - change ("{" +:+ k +:+ "}") with (String "{" (k +:+ "}")).
    cbn [String.length]. rewrite length_app_s. simpl. lia.
Qed.



End MacroExpansion.

(** ** Macros: save and load *)

Section MacroPersistence.

Import PyStr JumpCodeMacros.

Lemma save_macros_unfold (self : t) :
  save_macros self = config_of <$> map_to_list (macros self).
Proof.
  unfold save_macros. apply list_fmap_ext. by intros i [name macro] _.
Qed.

Lemma load_items_saved (now : nat -> Z) (l : list (string * Macro.t)) :
  NoDup l.*1 ->
  (∀ entry, entry ∈ l -> is_identifier entry.1 = true) ->
  ∀ (other : t) (start : nat),
    ∃ other',
      load_items other now start (config_of <$> l) = Ok other' ∧
      ∀ name,
        (∀ macro, (name, macro) ∈ l ->
           ∃ created, macros other' !! name = Some (reloaded macro created)) ∧
        (name ∉ l.*1 -> macros other' !! name = macros other !! name).
Proof.
  induction l as [|[n m] l IH]; intros Hnd Hid other start.
  - exists other. split; [done|]. intros name. split; [|done].
    intros macro H. by apply elem_of_nil in H.
  - rewrite fmap_cons in Hnd. apply NoDup_cons in Hnd as [Hn Hnd].
    cbn [fmap list_fmap config_of load_items fst snd MacroConfig.sequence
         MacroConfig.description MacroConfig.parameters default].
    unfold define_macro.
    assert (Hnm : is_identifier n = true) by (by apply (Hid (n, m)); left).
    rewrite Hnm. cbn [negb].
    cbn [mbind result_bind].
    set (other1 := mk (<[n := _]> (macros other))).
    destruct (IH Hnd (fun e He => Hid e (list_elem_of_further _ _ _ He))
                other1 (S start)) as (other' & Hload & Hspec).
    exists other'. split; [exact Hload|]. intros name. split.
    + intros macro Hin. apply elem_of_cons in Hin as [[= -> ->]|Hin].
      * exists (now start). destruct (Hspec n) as [_ Hout].
        rewrite (Hout Hn). unfold other1. cbn [macros].
        by rewrite lookup_insert_eq.
      * by apply Hspec.
    + intros Hout. apply not_elem_of_cons in Hout as [Hne Hout].
      destruct (Hspec name) as [_ Hrest]. rewrite (Hrest Hout).
      unfold other1. cbn [macros]. by rewrite lookup_insert_ne.
Qed.

(** Every operation keeps the names of the store valid identifiers, so
    the stores that [save_macros] is called on have valid names. *)
Lemma define_macro_keeps_names_valid (self self' : t) (created : Z)
    (name : string) (sequence : list string) (description : string)
    (parameters : option (list string)) :
  map_Forall (fun name _ => is_identifier name = true) (macros self) ->
  define_macro self created name sequence description parameters = Ok self' ->
  map_Forall (fun name _ => is_identifier name = true) (macros self').
Proof.
  intros Hvalid. unfold define_macro.
  destruct (is_identifier name) eqn:Hn; [|done].
  intros [= <-]. by apply map_Forall_insert_2.
Qed.

Lemma expand_macro_keeps_names_valid (self self' : t) (name : string)
    (params : gmap string string) (expanded : list string) :
  map_Forall (fun name _ => is_identifier name = true) (macros self) ->
  expand_macro self name params = Ok (expanded, self') ->
  map_Forall (fun name _ => is_identifier name = true) (macros self').
Proof.
  intros Hvalid. unfold expand_macro.
  destruct (macros self !! name) as [macro|] eqn:Hm; [|done].
  destruct (filter _ _); [|done]. intros [= _ <-].
  apply map_Forall_insert_2; [|done]. by apply (Hvalid name macro).
Qed.

(** C9: loading the document that [save_macros] writes defines every
    saved macro again with the same templates, description and declared
    parameters; the usage count is not in the document and is zero after
    the load; macros of the loading store with other names are left
    alone. *)
Theorem save_then_load_restores_macros (self other : t) (now : nat -> Z) :
  map_Forall (fun name _ => is_identifier name = true) (macros self) ->
  (∀ entry, entry ∈ save_macros self ->
     ∃ macro, macros self !! entry.1 = Some macro ∧
              entry.2 = MacroConfig.mk (Some (Macro.sequence macro))
                          (Some (Macro.description macro))
                          (Some (Macro.parameters macro))) ∧
  ∃ other',
    load_macros other now (save_macros self) = Ok other' ∧
    (∀ name macro, macros self !! name = Some macro ->
       ∃ created,
         macros other' !! name
         = Some (Macro.mk (Macro.sequence macro) (Macro.description macro)
                   (Macro.parameters macro) created 0)) ∧
    (∀ name, macros self !! name = None ->
       macros other' !! name = macros other !! name).
Proof.
  intros Hvalid. rewrite save_macros_unfold. split.
  - intros entry Hin. apply list_elem_of_fmap in Hin as ([n m] & -> & Hin).
    apply elem_of_map_to_list in Hin. by exists m.
  - destruct (load_items_saved now (map_to_list (macros self))
                (NoDup_fst_map_to_list _)) with (other := other) (start := 0)
      as (other' & Hload & Hspec).
    { intros [n m] Hin. apply elem_of_map_to_list in Hin.
      by apply (Hvalid n m). }
    exists other'. split; [exact Hload|]. split.
    + intros name macro Hm. destruct (Hspec name) as [Hin _].
      apply Hin. by apply elem_of_map_to_list.
    + intros name Hnone. destruct (Hspec name) as [_ Hout]. apply Hout.
      intros Hin. apply list_elem_of_fmap in Hin as ([n m] & -> & Hin).
      apply elem_of_map_to_list in Hin. simpl in Hnone. congruence.
Qed.

End MacroPersistence.

(** ** The properties at sample inputs *)

Section AtSamples.

Import PyStr.

Lemma samples_keep (k : string) : handlers_keep Samples.registry k.
Proof.
  intros name jc ctx kw H. unfold Samples.registry in H. cbn in H.
  apply lookup_insert_Some in H as [[_ <-]|[_ H]]; [done|].
  apply lookup_insert_Some in H as [[_ <-]|[_ H]]; [done|].
  apply lookup_insert_Some in H as [[_ <-]|[_ H]]; [done|].
  by rewrite lookup_empty in H.
Defined.

Lemma unregister_deletes_rebound_alias_witness :
  (is_identifier (JumpCode.code Samples.jc_echo) = true ∧
   is_identifier (JumpCode.code Samples.jc_boom) = true ∧
   JumpCode.code Samples.jc_echo ≠ JumpCode.code Samples.jc_boom ∧
   "e" ∈ JumpCode.aliases Samples.jc_echo ∧
   "e" ∈ JumpCode.aliases Samples.jc_boom) ∧
  ∃ r1 r2,
    JumpCodeRegistry.register (JumpCodeRegistry.mk ∅ ∅) Samples.jc_echo = Ok r1 ∧
    JumpCodeRegistry.register r1 Samples.jc_boom = Ok r2 ∧
    JumpCodeRegistry.aliases r2 !! "e" = Some "boom" ∧
    JumpCodeRegistry.resolve r2 "e" = "boom" ∧
    (JumpCodeRegistry.unregister r2 "echo").1 = true ∧
    JumpCodeRegistry.aliases (JumpCodeRegistry.unregister r2 "echo").2 !! "e" = None ∧
    JumpCodeRegistry.codes (JumpCodeRegistry.unregister r2 "echo").2 !! "boom"
    = Some Samples.jc_boom.
Proof.
  assert (Hne : JumpCode.code Samples.jc_echo ≠ JumpCode.code Samples.jc_boom)
    by discriminate.
  assert (Ha : "e" ∈ JumpCode.aliases Samples.jc_echo) by (by left).
  assert (Hb : "e" ∈ JumpCode.aliases Samples.jc_boom) by (right; by left).
  split; [by repeat split|].
  exact (unregister_deletes_rebound_alias (JumpCodeRegistry.mk ∅ ∅)
           Samples.jc_echo Samples.jc_boom "e" eq_refl eq_refl Hne Ha Hb).
Defined.

Lemma merge_never_overwrites_protected_keys_witness :
  ("sequence_id" ∈ ["sequence_id"; "sequence_position"; "previous_results"] ∧
   handlers_keep Samples.registry "sequence_id") ∧
  SequentialJumpCodes.merge_result
    (<["sequence_id" := VStr "run1"]> ∅)
    (<["sequence_id" := VStr "other"]> (<["agent" := VInt 1]> ∅))
    !! "sequence_id" = Some (VStr "run1") ∧
  (SequentialJumpCodes.run_steps Samples.registry Samples.clock 2 0
     ["@echo:sequence_id=other"; "@boom"]
     (<["sequence_id" := VStr "run1"]> ∅) []).2 !! "sequence_id"
  = Some (VStr "run1").
Proof.
  assert (Hin : "sequence_id"
                ∈ ["sequence_id"; "sequence_position"; "previous_results"])
    by (by left).
  split; [split; [exact Hin | exact (samples_keep "sequence_id")]|].
  destruct merge_never_overwrites_protected_keys as [Hmerge Hrun].
  split.
  - exact (Hmerge (<["sequence_id" := VStr "run1"]> ∅)
             (<["sequence_id" := VStr "other"]> (<["agent" := VInt 1]> ∅))
             "sequence_id" Hin).
  - exact (Hrun Samples.registry Samples.clock 2 0
             ["@echo:sequence_id=other"; "@boom"]
             (<["sequence_id" := VStr "run1"]> ∅) []
             (samples_keep "sequence_id")).
Defined.

Lemma history_bounded_oldest_evicted_first_witness :
  ((0 < SequentialJumpCodes.max_memory_size
          (SequentialJumpCodes.init Samples.registry))%Z ∧
   length (SequentialJumpCodes.sequence_memory
             (SequentialJumpCodes.init Samples.registry)) ≤ 100) ∧
  SequentialJumpCodes.sequence_memory
    (foldl SequentialJumpCodes._add_to_memory
       (SequentialJumpCodes.init Samples.registry) (Samples.records 105))
  = drop 5 (Samples.records 105) ∧
  length (SequentialJumpCodes.sequence_memory
            (foldl SequentialJumpCodes._add_to_memory
               (SequentialJumpCodes.init Samples.registry) (Samples.records 105)))
  = 100.
Proof.
  assert (H1 : (0 < SequentialJumpCodes.max_memory_size
                      (SequentialJumpCodes.init Samples.registry))%Z)
    by reflexivity.
  assert (H2 : length (SequentialJumpCodes.sequence_memory
                         (SequentialJumpCodes.init Samples.registry))
               ≤ Z.to_nat (SequentialJumpCodes.max_memory_size
                             (SequentialJumpCodes.init Samples.registry)))
    by (simpl; lia).
  split; [split; [exact H1 | simpl; lia]|].
  destruct (history_bounded_oldest_evicted_first
              (SequentialJumpCodes.init Samples.registry) (Samples.records 105)
              H1 H2) as (_ & _ & H).
  exact (H eq_refl eq_refl).
Defined.





Lemma sample_macros_valid :
  map_Forall (fun name _ => is_identifier name = true)
             (JumpCodeMacros.macros sample_macros).
Proof.
  apply map_Forall_insert_2; [reflexivity | apply map_Forall_empty].
Defined.

Lemma save_then_load_restores_macros_witness :
  map_Forall (fun name _ => is_identifier name = true)
             (JumpCodeMacros.macros sample_macros) ∧
  ∃ other',
    JumpCodeMacros.load_macros (JumpCodeMacros.mk ∅) (fun k => Z.of_nat k)
      (JumpCodeMacros.save_macros sample_macros) = Ok other' ∧
    ∃ created,
      JumpCodeMacros.macros other' !! "m"
      = Some (Macro.mk ["@x:role=${r}"] "Create with a role" ["r"] created 0).
Proof.
  split; [exact sample_macros_valid|].
  destruct (save_then_load_restores_macros sample_macros (JumpCodeMacros.mk ∅)
              (fun k => Z.of_nat k) sample_macros_valid)
    as (_ & other' & Hload & Hsaved & _).
  exists other'. split; [exact Hload|].
  exact (Hsaved "m" _ eq_refl).
Defined.

End AtSamples.

(** * Further properties *)

(** ** Registry: names, aliases and failures *)

Section RegistryMore.

Import PyStr JumpCodeRegistry.

(** X1: the name check of [register] and [define_macro] accepts exactly
    a letter or underscore followed by word characters, and also such a
    name with one line feed at its end. *)
Theorem is_identifier_accepts (s : string) :
  is_identifier s = true ↔ identifier_shape s.
Proof.
  unfold is_identifier, identifier_shape. split.
  - destruct s as [|c r]; [done|]. intros H.
    apply andb_prop in H as [Hc H].
    destruct (span is_word r) as [w rest] eqn:Hs.
    apply span_spec in Hs as (-> & Hw & _).
    exists c, w, rest. split; [done|]. split.
    + apply orb_prop in Hc as [Hc|Hc]; [by left|].
      right. by apply Ascii.eqb_eq.
    + split; [done|].
      apply orb_prop in H as [H|H]; apply String.eqb_eq in H; auto.
  - intros (c & w & nl & -> & Hc & Hw & Hnl).
    apply andb_true_intro. split.
    + destruct Hc as [Hc| ->]; [by rewrite Hc|]. by rewrite orb_true_r.
    + rewrite span_app; [|done|by destruct Hnl as [-> | ->]].
      destruct Hnl as [-> | ->]; reflexivity.
Qed.

Lemma register_ok (self : t) (jump_code : JumpCode.t) :
  is_identifier (JumpCode.code jump_code) = true ->
  register self jump_code
  = Ok (mk (<[JumpCode.code jump_code := jump_code]> (codes self))
           (foldl (fun al alias => <[alias := JumpCode.code jump_code]> al)
                  (aliases self) (JumpCode.aliases jump_code))).
Proof. intros H. unfold register. by rewrite H. Qed.

Lemma register_inv (self self' : t) (jump_code : JumpCode.t) :
  register self jump_code = Ok self' ->
  is_identifier (JumpCode.code jump_code) = true ∧
  self' = mk (<[JumpCode.code jump_code := jump_code]> (codes self))
             (foldl (fun al alias => <[alias := JumpCode.code jump_code]> al)
                    (aliases self) (JumpCode.aliases jump_code)).
Proof.
  unfold register. destruct (is_identifier _); [|done]. by intros [= <-].
Qed.

(** What [execute] does once the command has been parsed. *)
Lemma execute_parsed (self : t) (code_string : string) (p : parsed)
    (context : gmap string pyval) :
  _parse_jump_code code_string = Ok p ->
  execute self code_string context
  = match codes self !! resolve self (parsed_code p) with
    | None =>
        mk_hreturn (Raise (ValueError ("Unknown jump code: "
                                       +:+ resolve self (parsed_code p))))
                   context
    | Some jump_code =>
        match (match JumpCode.context_required jump_code with
               | [] => Ok tt
               | required => _validate_context required context
               end) with
        | Raise e => mk_hreturn (Raise e) context
        | Ok _ =>
            JumpCode.handler jump_code context
              (parsed_parameters p ∪ JumpCode.parameters jump_code)
        end
    end.
Proof. intros Hp. unfold execute. by rewrite Hp. Qed.

(** X2: after a command is registered, and provided its canonical name
    is not itself bound as an alias (the name resolves to itself), a
    command string that names one of its aliases runs exactly like the
    same string with the canonical name: same handler, same parameters,
    same result and context. *)
Theorem alias_runs_like_canonical_name (self self' : t) (jump_code : JumpCode.t)
    (alias s1 s2 : string) (params context : gmap string pyval) :
  register self jump_code = Ok self' ->
  alias ∈ JumpCode.aliases jump_code ->
  resolve self' (JumpCode.code jump_code) = JumpCode.code jump_code ->
  _parse_jump_code s1 = Ok (mk_parsed alias params) ->
  _parse_jump_code s2 = Ok (mk_parsed (JumpCode.code jump_code) params) ->
  resolve self' alias = JumpCode.code jump_code ∧
  execute self' s1 context = execute self' s2 context.
Proof.
  intros Hreg Hin Hcode H1 H2.
  apply register_inv in Hreg as [_ ->].
  assert (Hres : resolve
            (mk (<[JumpCode.code jump_code := jump_code]> (codes self))
                (foldl (fun al a => <[a := JumpCode.code jump_code]> al)
                       (aliases self) (JumpCode.aliases jump_code)))
            alias = JumpCode.code jump_code).
  { unfold resolve. cbn [aliases]. rewrite lookup_foldl_insert.
    by rewrite bool_decide_eq_true_2. }
  split; [exact Hres|].
  rewrite (execute_parsed _ s1 _ _ H1), (execute_parsed _ s2 _ _ H2).
  cbn [parsed_code parsed_parameters]. by rewrite Hres, Hcode.
Qed.

(** X3: registering a command whose name and aliases are all new and
    unregistering it again gives back the registry as it was. *)
Theorem register_then_unregister (self self' : t) (jump_code : JumpCode.t) :
  register self jump_code = Ok self' ->
  codes self !! JumpCode.code jump_code = None ->
  (∀ alias, alias ∈ JumpCode.aliases jump_code -> aliases self !! alias = None) ->
  unregister self' (JumpCode.code jump_code) = (true, self).
Proof.
  intros Hreg Hnew Hal. apply register_inv in Hreg as [_ ->].
  unfold unregister. cbn [codes aliases]. rewrite lookup_insert_eq.
  f_equal. destruct self as [cs al]. cbn [codes aliases] in *. f_equal.
  - rewrite delete_insert_eq. by apply delete_id.
  - apply map_eq. intros k. rewrite lookup_foldl_delete.
    destruct (bool_decide_reflect (k ∈ JumpCode.aliases jump_code)) as [Hk|Hk].
    + symmetry. by apply Hal.
    + rewrite lookup_foldl_insert. by rewrite bool_decide_eq_false_2.
Qed.

(** X4: registering a command again under the same name with another
    alias list leaves the old aliases bound; unregistering the command
    then removes only the aliases of the last registration.  An old alias
    stays in the table, and a command string that names it fails with
    "Unknown jump code" and the canonical name. *)
Theorem stale_alias_survives_unregister (self r1 r2 : t) (jc1 jc2 : JumpCode.t)
    (x s : string) (params context : gmap string pyval) :
  register self jc1 = Ok r1 ->
  register r1 jc2 = Ok r2 ->
  JumpCode.code jc2 = JumpCode.code jc1 ->
  x ∈ JumpCode.aliases jc1 ->
  x ∉ JumpCode.aliases jc2 ->
  _parse_jump_code s = Ok (mk_parsed x params) ->
  let r3 := (unregister r2 (JumpCode.code jc1)).2 in
  aliases r3 !! x = Some (JumpCode.code jc1) ∧
  codes r3 !! JumpCode.code jc1 = None ∧
  execute r3 s context
  = mk_hreturn (Raise (ValueError ("Unknown jump code: " +:+ JumpCode.code jc1)))
               context.
Proof.
  intros H1 H2 Hcode Hx1 Hx2 Hp r3.
  apply register_inv in H1 as [_ ->]. apply register_inv in H2 as [_ ->].
  subst r3. unfold unregister. cbn [codes aliases]. rewrite Hcode.
  rewrite lookup_insert_eq. cbn [snd codes aliases].
  assert (Hal : foldl (fun al alias => delete alias al)
                  (foldl (fun al alias => <[alias := JumpCode.code jc1]> al)
                     (foldl (fun al alias => <[alias := JumpCode.code jc1]> al)
                        (aliases self) (JumpCode.aliases jc1))
                     (JumpCode.aliases jc2))
                  (JumpCode.aliases jc2) !! x = Some (JumpCode.code jc1)).
  { rewrite lookup_foldl_delete, bool_decide_eq_false_2 by done.
    rewrite lookup_foldl_insert, bool_decide_eq_false_2 by done.
    rewrite lookup_foldl_insert. by rewrite bool_decide_eq_true_2. }
  assert (Hcs : delete (JumpCode.code jc1)
                  (<[JumpCode.code jc1 := jc2]>
                     (<[JumpCode.code jc1 := jc1]> (codes self)))
                !! JumpCode.code jc1 = None) by apply lookup_delete_eq.
  split; [exact Hal|]. split; [exact Hcs|].
  rewrite (execute_parsed _ s _ _ Hp). cbn [parsed_code].
  unfold resolve at 1. cbn [aliases]. rewrite Hal. cbn [default from_option id].
  cbn [codes]. rewrite Hcs. unfold resolve. cbn [aliases].
  by rewrite Hal.
Qed.

Lemma match_code_name (s w : string) (g : option string) :
  match_code s = Some (w, g) -> w ≠ "" ∧ all is_word w = true.
Proof.
  unfold match_code. destruct (span is_word s) as [w' rest] eqn:Hs.
  apply span_spec in Hs as (_ & Hw & _).
  destruct (String.eqb w' "") eqn:He; [done|].
  apply String.eqb_neq in He. intros H.
  assert (w' = w) as <-; [|done].
  destruct rest as [|c r]; [by injection H|].
  destruct (Ascii.eqb c newline).
  { destruct (String.eqb r ""); [by injection H | done]. }
  destruct (Ascii.eqb c ":"); [|done].
  destruct (span _ r) as [d r']. destruct (String.eqb d ""); [done|].
  destruct (_ || _); [by injection H | done].
Qed.

(** X5: the command name that the parser hands to the registry is never
    empty and has word characters only.  So an alias with any other
    character, like the alias [?] of the built-in help command, is in the
    table but no command string ever resolves through it. *)
Theorem parsed_names_are_words (s : string) (p : parsed) :
  _parse_jump_code s = Ok p ->
  parsed_code p ≠ "" ∧ all is_word (parsed_code p) = true ∧
  ∀ alias, all is_word alias = false -> parsed_code p ≠ alias.
Proof.
  rewrite _parse_jump_code_unfold.
  destruct (match_code _) as [[w g]|] eqn:Hm; [|done].
  destruct (if String.eqb (default "" g) "" then _ else _) as [m|e]; [|done].
  intros [= <-]. cbn [parsed_code].
  apply match_code_name in Hm as [Hne Hw].
  split; [done|]. split; [done|]. intros alias Ha ->. congruence.
Qed.

(** X6: when [execute] fails before the handler is reached (the command
    does not parse, is unknown, or lacks a required context key), the
    context comes back unchanged. *)
Theorem failure_before_handler_keeps_context (self : t) (code_string : string)
    (context : gmap string pyval) (e : exn) :
  h_out (execute self code_string context) = Raise e ->
  (¬ ∃ context', handler_raises self code_string context e context') ->
  h_ctx (execute self code_string context) = context.
Proof.
  intros Hout Hnot.
  destruct (_parse_jump_code code_string) as [p|e0] eqn:Hp;
    [|by unfold execute; rewrite Hp].
  rewrite (execute_parsed _ _ _ _ Hp) in Hout |- *.
  destruct (codes self !! _) as [jc|] eqn:Hjc; [|done].
  destruct (match JumpCode.context_required jc with
            | [] => Ok tt
            | _ => _
            end) as [[]|e1] eqn:Hv; [|done].
  exfalso. apply Hnot.
  exists (h_ctx (JumpCode.handler jc context
                   (parsed_parameters p ∪ JumpCode.parameters jc))).
  exists p, jc. split; [done|]. split; [done|]. split.
  - intros key Hkey.
    destruct (JumpCode.context_required jc) as [|k l] eqn:Hl;
      [by apply elem_of_nil in Hkey|].
    unfold _validate_context in Hv.
    destruct (filter _ (k :: l)) as [|m ms] eqn:Hf; [|done].
    destruct (context !! key) eqn:Hlk; [by eexists|].
    assert (Hin : key ∈ filter (fun key => context !! key = None) (k :: l)).
    { by apply list_elem_of_filter. }
    rewrite Hf in Hin. by apply elem_of_nil in Hin.
  - destruct (JumpCode.handler jc context _) as [o c]. simpl in *.
    by rewrite Hout.
Qed.

End RegistryMore.

(** ** Sequential runs: shape of the results *)

Section RunShape.

Import PyStr SequentialJumpCodes.

Lemma run_steps_shape (registry : JumpCodeRegistry.t) (clock : Clock)
    (total : nat) (todo : list string) :
  ∀ i context results,
    ∃ new,
      (run_steps registry clock total i todo context results).1 = results ++ new ∧
      Step.code <$> new = take (length new) todo ∧
      Step.position <$> new = seq i (length new) ∧
      (length new < length todo ->
       ∃ step, last new = Some step ∧ Step.success step = false ∧
               has_critical_text (default "" (Step.error step)) = true).
Proof.
  induction todo as [|code todo IH]; intros i ctx results.
  - exists []. cbn [run_steps fst]. rewrite app_nil_r.
    split; [done|]. split; [done|]. split; [done|]. simpl. lia.
  - cbn [run_steps]. cbv zeta.
    set (r := JumpCodeRegistry.execute registry code _).
    destruct (h_out r) as [v|e].
    + destruct (IH (S i) (update_context (h_ctx r) v)
                  (results ++ [ok_step clock code i v]))
        as (new & Hrs & Hcodes & Hpos & Hcut).
      rewrite Hrs. exists (ok_step clock code i v :: new).
      rewrite <- app_assoc. split; [done|]. cbn [length fmap list_fmap take seq].
      rewrite <- Hcodes, <- Hpos.
      split; [done|]. split; [done|]. intros Hlt.
      destruct Hcut as (step & Hlast & Hs); [lia|].
      exists step. split; [|exact Hs].
      destruct new as [|n new]; [done|]. exact Hlast.
    + rewrite _should_abort_sequence_spec.
      destruct (has_critical_text (exn_str e)) eqn:Hcrit.
      * exists [failed_step clock code i e]. cbn [fst].
        split; [done|]. split; [done|]. split; [done|].
        intros _. exists (failed_step clock code i e).
        split; [done|]. split; [done|]. exact Hcrit.
      * destruct (IH (S i) (h_ctx r) (results ++ [failed_step clock code i e]))
          as (new & Hrs & Hcodes & Hpos & Hcut).
        rewrite Hrs. exists (failed_step clock code i e :: new).
        rewrite <- app_assoc. split; [done|].
        cbn [length fmap list_fmap take seq].
        rewrite <- Hcodes, <- Hpos.
        split; [done|]. split; [done|]. intros Hlt.
        destruct Hcut as (step & Hlast & Hs); [lia|].
        exists step. split; [|exact Hs].
        destruct new as [|n new]; [done|]. exact Hlast.
Qed.

(** X7: the recorded steps of a run are its commands in order, without
    gaps: step number [j] of the results is for the [j]-th command and
    carries position [j]; there are never more steps than commands. *)
Theorem results_follow_the_commands (registry : JumpCodeRegistry.t)
    (clock : Clock) (sequence : list string) (context : gmap string pyval) :
  let results :=
    (run_steps registry clock (length sequence) 0 sequence context []).1 in
  length results ≤ length sequence ∧
  Step.code <$> results = take (length results) sequence ∧
  Step.position <$> results = seq 0 (length results).
Proof.
  intros results. unfold results.
  destruct (run_steps_shape registry clock (length sequence) sequence 0 context [])
    as (new & -> & Hcodes & Hpos & _).
  rewrite app_nil_l. split; [|done].
  apply (f_equal length) in Hcodes.
  rewrite length_fmap, length_take in Hcodes. lia.
Qed.

(** X8: a run that records fewer steps than it has commands was stopped:
    its last recorded step failed, with a message that holds one of the
    critical texts.  So a run without such a failure records a step for
    every command. *)
Theorem short_run_ends_in_critical_failure (registry : JumpCodeRegistry.t)
    (clock : Clock) (sequence : list string) (context : gmap string pyval) :
  let results :=
    (run_steps registry clock (length sequence) 0 sequence context []).1 in
  length results < length sequence ->
  ∃ step, last results = Some step ∧ Step.success step = false ∧
          has_critical_text (default "" (Step.error step)) = true.
Proof.
  intros results. unfold results.
  destruct (run_steps_shape registry clock (length sequence) sequence 0 context [])
    as (new & -> & _ & _ & Hcut).
  rewrite app_nil_l. exact Hcut.
Qed.

End RunShape.

(** ** Sequential runs: success rate and history queries *)

Section RateAndHistory.

Import SequentialJumpCodes SequentialHistory.

Lemma count_success_le (results : list Step.t) :
  count_success results ≤ length results.
Proof. unfold count_success. apply length_filter. Qed.

Lemma count_success_all (results : list Step.t) :
  count_success results = length results
  ↔ Forall (fun r => Step.success r = true) results.
Proof.
  unfold count_success. induction results as [|r l IH]; [by split|].
  rewrite filter_cons. destruct (decide (Step.success r = true)) as [Hr|Hr].
  - cbn [length]. rewrite Forall_cons. split.
    + intros H. split; [done|]. apply IH. lia.
    + intros [_ H]. f_equal. by apply IH.
  - split.
    + intros H. pose proof (length_filter (fun r => Step.success r = true) l).
      cbn [length] in H. lia.
    + intros H. by apply Forall_cons in H as [? _].
Qed.

Lemma success_rate_one (results : list Step.t) :
  Qeq_bool (success_rate_of results) 1 = true
  ↔ results ≠ [] ∧ Forall (fun r => Step.success r = true) results.
Proof.
  destruct results as [|r l]; [by split; [|intros [? _]]|].
  unfold success_rate_of. rewrite <- count_success_all.
  unfold Qeq_bool. cbn [Qnum Qden]. rewrite Z.eqb_eq.
  split.
  - intros H. split; [done|]. cbn [length] in *. lia.
  - intros [_ H]. rewrite H. cbn [length]. lia.
Qed.

(** X9: the success rate of a run lies between 0 and 1, and it is 1
    exactly when the run recorded at least one step and every recorded
    step succeeded; the rate of a run without steps is 0. *)
Theorem success_rate_bounds (results : list Step.t) :
  (0 <= success_rate_of results)%Q ∧ (success_rate_of results <= 1)%Q ∧
  (Qeq_bool (success_rate_of results) 1 = true
   ↔ results ≠ [] ∧ Forall (fun r => Step.success r = true) results) ∧
  success_rate_of [] = 0%Q.
Proof.
  split; [|split; [|split; [apply success_rate_one | done]]].
  - destruct results as [|r l]; [done|]. unfold success_rate_of, Qle.
    cbn [Qnum Qden]. lia.
  - destruct results as [|r l]; [done|]. unfold success_rate_of, Qle.
    cbn [Qnum Qden]. pose proof (count_success_le (r :: l)).
    cbn [length] in *. lia.
Qed.

(** X10: the record that a run leaves in the history is among the
    successful sequences exactly when the run had at least one command,
    recorded a step for every command and every step succeeded.  A run of
    no commands is completed but not successful. *)
Theorem successful_sequences_are_complete_and_clean (self self' : t)
    (clock : Clock) (sequence : list string) (results : list Step.t) :
  (0 ≤ max_memory_size self)%Z ->
  execute_sequence self clock sequence = Ok (results, self') ->
  ∃ record,
    last (sequence_memory self') = Some record ∧
    SequenceRecord.sequence record = sequence ∧
    (record ∈ find_successful_sequences self'
     ↔ sequence ≠ [] ∧ length results = length sequence
       ∧ Forall (fun r => Step.success r = true) results).
Proof.
  intros Hmax. unfold execute_sequence.
  destruct (run_steps _ _ _ _ _ _ _) as [rs ctx].
  destruct (ctx !! "sequence_start") as [[]|]; try done.
  intros [= <- <-]. eexists. split; [by apply _add_to_memory_last|].
  split; [done|].
  unfold find_successful_sequences. rewrite list_elem_of_filter.
  cbn [SequenceRecord.completed SequenceRecord.success_rate].
  rewrite success_rate_one, Nat.eqb_eq. split.
  - intros [(Hlen & Hne & Hall) _]. split; [|done].
    intros ->. destruct rs; [done|]. simpl in Hlen. lia.
  - intros (Hne & Hlen & Hall). split.
    + split; [done|]. split; [|done]. intros ->. by destruct sequence.
    + apply list_elem_of_lookup. eexists.
      rewrite <- last_lookup. by apply _add_to_memory_last.
Qed.

(** X11: [get_history] with a positive limit gives the most recent
    [limit] records, oldest first; with limit 0 it gives the whole
    history, not an empty list; with a negative limit it leaves out the
    oldest [-limit] records. *)
Theorem get_history_slices (self : t) (limit : Z) :
  ((0 < limit)%Z ->
   get_history self limit = last_n (Z.to_nat limit) (sequence_memory self)) ∧
  (limit = 0%Z -> get_history self limit = sequence_memory self) ∧
  ((limit < 0)%Z ->
   get_history self limit = drop (Z.to_nat (- limit)) (sequence_memory self)).
Proof.
  unfold get_history, slice_from, last_n. split; [|split].
  - intros H. destruct (Z.ltb_spec (- limit) 0); [|lia]. f_equal. lia.
  - intros ->. reflexivity.
  - intros H. destruct (Z.ltb_spec (- limit) 0); [lia|]. done.
Qed.

(** X12: with [max_memory_size] set to 0 nothing is ever evicted: the
    history keeps every record. *)
Theorem zero_capacity_keeps_everything (self : t) (l : list SequenceRecord.t) :
  max_memory_size self = 0%Z ->
  sequence_memory (foldl _add_to_memory self l) = sequence_memory self ++ l.
Proof.
  revert self. induction l as [|r l IH]; intros self Hmax.
  - by rewrite app_nil_r.
  - cbn [foldl]. rewrite IH.
    + unfold _add_to_memory, slice_from. rewrite Hmax.
      change (- 0 <? 0)%Z with false. change (Z.to_nat (- 0)) with 0.
      destruct (_ <? _)%Z; cbn [sequence_memory]; rewrite ?drop_0;
        by rewrite <- app_assoc.
    + unfold _add_to_memory. by destruct (_ <? _)%Z.
Qed.

End RateAndHistory.

(** ** Sequential runs: context passing and replay *)

Section ContextAndReplay.

Import SequentialJumpCodes SequentialHistory.

(** X13: what a step returns is passed on to the next step of the run.
    After a command that returns, the next command is executed in the
    context the first one left, updated with the returned dictionary,
    and the step recorded for it is the outcome of that call.  For every
    key that is not protected this context holds the value of the
    returned dictionary, or the value the first call left when the
    dictionary has no such key; a result that is not a dictionary
    changes no key.  The position in it is that of the next step. *)
Theorem result_keys_reach_next_step (registry : JumpCodeRegistry.t)
    (clock : Clock) (total i : nat) (code next : string) (todo : list string)
    (context : gmap string pyval) (results : list Step.t) (v : pyval) :
  let first :=
    JumpCodeRegistry.execute registry code (enter_step i results context) in
  h_out first = Ok v ->
  let context' :=
    enter_step (S i) (results ++ [ok_step clock code i v])
      (update_context (h_ctx first) v) in
  let second := JumpCodeRegistry.execute registry next context' in
  (run_steps registry clock total i (code :: next :: todo) context results).1
    !! S (length results)
  = Some (match h_out second with
          | Ok v2 => ok_step clock next (S i) v2
          | Raise e => failed_step clock next (S i) e
          end) ∧
  (∀ k, k ∉ protected_keys ->
     context' !! k
     = match v with
       | VDict d => match d !! k with
                    | Some x => Some x
                    | None => h_ctx first !! k
                    end
       | _ => h_ctx first !! k
       end) ∧
  context' !! "sequence_position" = Some (VInt (Z.of_nat (S i))).
Proof.
  intros first Hout context' second. split; [|split].
  - cbn [run_steps]. fold first. rewrite Hout. cbv zeta.
    fold context'. fold second.
    set (results1 := results ++ [ok_step clock code i v]).
    assert (Hlen : S (length results) = length results1).
    { unfold results1. rewrite length_app. cbn [length]. lia. }
    rewrite Hlen. destruct (h_out second) as [v2|e].
    + destruct (run_steps_extends registry clock total todo (S (S i))
                  (update_context (h_ctx second) v2)
                  (results1 ++ [ok_step clock next (S i) v2]))
        as (new & -> & _).
      apply lookup_app_snoc.
    + destruct (_should_abort_sequence e (S i) total).
      * cbn [fst]. rewrite <- (app_nil_r (results1 ++ [_])).
        apply lookup_app_snoc.
      * destruct (run_steps_extends registry clock total todo (S (S i))
                    (h_ctx second)
                    (results1 ++ [failed_step clock next (S i) e]))
          as (new & -> & _).
        apply lookup_app_snoc.
  - intros k Hk. unfold context', enter_step.
    rewrite !lookup_insert_ne.
    + destruct v; try done. cbn [update_context].
      rewrite lookup_merge_result. by rewrite bool_decide_eq_false_2.
    + intros <-. apply Hk. right. by left.
    + intros <-. apply Hk. right. right. by left.
  - unfold context', enter_step.
    rewrite lookup_insert_ne by done. by rewrite lookup_insert_eq.
Qed.

(** X14: [replay_sequence] refuses every index outside [0, len) with
    ValueError, negative ones included, and changes nothing then; for an
    index inside, a replay that returns has appended a history entry for
    the same commands as the entry it replayed. *)
Theorem replay_runs_the_stored_commands (self : t) (clock : Clock)
    (sequence_index : Z) :
  (((sequence_index < 0)%Z
    ∨ (Z.of_nat (length (sequence_memory self)) ≤ sequence_index)%Z) ->
   replay_sequence self clock sequence_index
   = Raise (ValueError ("Invalid sequence index: " +:+ pretty sequence_index))) ∧
  (∀ results self',
     (0 ≤ max_memory_size self)%Z ->
     replay_sequence self clock sequence_index = Ok (results, self') ->
     ∃ old new,
       sequence_memory self !! Z.to_nat sequence_index = Some old ∧
       last (sequence_memory self') = Some new ∧
       SequenceRecord.sequence new = SequenceRecord.sequence old ∧
       SequenceRecord.results new = results).
Proof.
  unfold replay_sequence. split.
  - intros Hout.
    destruct (Z.leb_spec 0 sequence_index), (Z.ltb_spec sequence_index
      (Z.of_nat (length (sequence_memory self)))); try done; lia.
  - intros results self' Hmax.
    destruct (_ && _); [|done].
    destruct (sequence_memory self !! Z.to_nat sequence_index) as [old|]; [|done].
    unfold execute_sequence.
    destruct (run_steps _ _ _ _ _ _ _) as [rs ctx].
    destruct (ctx !! "sequence_start") as [[]|]; try done.
    intros [= <- <-]. eexists old, _.
    split; [done|]. split; [by apply _add_to_memory_last|]. done.
Qed.

End ContextAndReplay.

(** ** Macros: placeholders, inferred parameters, use counts *)

Section MacrosMore.

Import PyStr JumpCodeMacros.

Lemma placeholder_at_inv (s k : string) :
  placeholder_at s = Some k ->
  k ≠ "" ∧ all is_word k = true ∧ ∃ rest, s = "${" +:+ k +:+ "}" +:+ rest.
Proof.
  unfold placeholder_at.
  destruct s as [|c s]; [done|].
  destruct (Ascii.eqb c "$") eqn:Hc.
  2:{ destruct c as [[] [] [] [] [] [] [] []]; try done. }
  apply Ascii.eqb_eq in Hc as ->.
  destruct s as [|c s]; [done|].
  destruct (Ascii.eqb c "{") eqn:Hc.
  2:{ destruct c as [[] [] [] [] [] [] [] []]; try done. }
  apply Ascii.eqb_eq in Hc as ->.
  destruct (span is_word s) as [name rest] eqn:Hs.
  apply span_spec in Hs as (-> & Hw & _).
  destruct (String.eqb name "") eqn:Hn; [done|]. apply String.eqb_neq in Hn.
  destruct rest as [|c rest]; [done|].
  destruct (Ascii.eqb c "}") eqn:Hc.
  2:{ destruct c as [[] [] [] [] [] [] [] []]; try done. }
  apply Ascii.eqb_eq in Hc as ->. intros [= <-].
  split; [done|]. split; [done|]. by exists rest.
Qed.

Lemma findall_from_skip (a b : string) :
  JumpCodeMiddleware.findall_from (String.length a) (a +:+ b) = JumpCodeMiddleware.findall_from 0 b.
Proof.
  induction a as [|c a IH]; [by destruct b|]. rewrite app_cons. exact IH.
Qed.

Lemma findall_placeholder (k rest : string) :
  k ≠ "" -> all is_word k = true ->
  JumpCodeMiddleware.findall_placeholders ("${" +:+ k +:+ "}" +:+ rest)
  = k :: JumpCodeMiddleware.findall_placeholders rest.
Proof.
  intros Hk Hw. pose proof (placeholder_at_found k rest Hk Hw) as Hp.
  unfold JumpCodeMiddleware.findall_placeholders.
  assert (E : "${" +:+ k +:+ "}" +:+ rest
              = String "$" (("{" +:+ k +:+ "}") +:+ rest)).
  { change (("{" +:+ k +:+ "}") +:+ rest)
      with (String "{" ((k +:+ "}") +:+ rest)).
    by rewrite app_assoc_s. }
  rewrite E in Hp |- *. cbn [JumpCodeMiddleware.findall_from]. rewrite Hp. f_equal.
  replace (String.length k + 2) with (String.length ("{" +:+ k +:+ "}")).
  - apply findall_from_skip.
  - change ("{" +:+ k +:+ "}") with (String "{" (k +:+ "}")).
    cbn [String.length]. rewrite length_app_s. simpl. lia.
Qed.

Lemma findall_literal (c : ascii) (code : string) :
  placeholder_at (String c code) = None ->
  JumpCodeMiddleware.findall_placeholders (String c code) = JumpCodeMiddleware.findall_placeholders code.
Proof. intros H. unfold JumpCodeMiddleware.findall_placeholders. cbn [JumpCodeMiddleware.findall_from]. by rewrite H. Qed.

Lemma substitute_unvalued (params : gmap string string) (n : nat) :
  ∀ code, String.length code ≤ n ->
    (∀ k, k ∈ JumpCodeMiddleware.findall_placeholders code -> params !! k = None) ->
    _substitute_params code params = code.
Proof.
  unfold _substitute_params.
  induction n as [|n IH]; intros code Hlen Hnone.
  - destruct code; [done|]. simpl in Hlen. lia.
  - destruct code as [|c code]; [done|].
    destruct (placeholder_at (String c code)) as [k|] eqn:Hp.
    + apply placeholder_at_inv in Hp as (Hk & Hw & rest & E).
      rewrite E in *. rewrite sub_from_placeholder by done.
      rewrite findall_placeholder in Hnone by done.
      unfold replacer. rewrite (Hnone k) by (by left).
      rewrite IH.
      * by rewrite !app_assoc_s.
      * change ("${" +:+ k +:+ "}" +:+ rest)
          with (String "$" (String "{" (k +:+ String "}" rest))) in Hlen.
        cbn [String.length] in Hlen. rewrite length_app_s in Hlen.
        cbn [String.length] in Hlen. lia.
      * intros k' Hk'. apply Hnone. by right.
    + rewrite sub_from_literal by done. f_equal.
      apply IH; [simpl in Hlen; lia|].
      intros k Hk. apply Hnone. by rewrite findall_literal.
Qed.

(** X15: substitution changes a template only at placeholders that have
    a value: when none of the placeholder names of the template is a key
    of the valuation, the template comes back as it is; in particular
    with the empty valuation. *)
Theorem substitution_without_values_is_identity (code : string)
    (params : gmap string string) :
  ((∀ k, k ∈ JumpCodeMiddleware.findall_placeholders code -> params !! k = None) ->
   _substitute_params code params = code) ∧
  _substitute_params code ∅ = code.
Proof.
  split.
  - by apply (substitute_unvalued params (String.length code)).
  - apply (substitute_unvalued ∅ (String.length code)); [done|].
    intros k _. apply lookup_empty.
Qed.




(** X17: every successful expansion counts once: after one expansion for
    each valuation of a list the usage count of the macro has grown by
    the length of the list, its templates, description and parameters are
    as before, and the other macros are untouched. *)
Theorem usage_count_counts_expansions (valuations : list (gmap string string)) :
  ∀ (self self' : t) (name : string) (macro : Macro.t),
    macros self !! name = Some macro ->
    expand_each self name valuations = Ok self' ->
    macros self' !! name
    = Some (Macro.mk (Macro.sequence macro) (Macro.description macro)
              (Macro.parameters macro) (Macro.created macro)
              (Macro.usage_count macro + length valuations)) ∧
    ∀ other, other ≠ name -> macros self' !! other = macros self !! other.
Proof.
  induction valuations as [|params l IH]; intros self self' name macro Hm.
  - cbn [expand_each]. intros [= <-]. cbn [length]. rewrite Nat.add_0_r.
    split; [by destruct macro|done].
  - cbn [expand_each]. unfold expand_macro. rewrite Hm.
    destruct (filter _ _); [|done]. intros Hrest.
    destruct (IH _ self' name (used macro) (lookup_insert_eq _ _ _) Hrest)
      as [Hname Hother].
    split.
    + rewrite Hname. cbn. do 2 f_equal. lia.
    + intros other Hne. rewrite (Hother other Hne). cbn [macros].
      by rewrite lookup_insert_ne.
Qed.

End MacrosMore.

(** ** The enhanced processor: parsing *)

Section EnhancedParsing.

Import PyStr EnhancedJumpCodeProcessor.

(** X19: the enhanced parser accepts exactly the strings that begin with
    the sigil and at least one word character; whatever follows the
    name cannot make it fail. *)
Theorem enhanced_parser_accepts_any_named_input (s : string) :
  is_ok (parse_jump_code s) = true
  ↔ ∃ c rest, s = String "@" (String c rest) ∧ is_word c = true.
Proof.
  unfold parse_jump_code. split.
  - destruct s as [|a s]; [done|].
    destruct (startswith "@" (String a s)) eqn:Hst; [|done].
    cbn [negb]. unfold match_code.
    destruct (Ascii.eqb a "@") eqn:Ha.
    2:{ apply Ascii.eqb_neq in Ha.
        destruct a as [[] [] [] [] [] [] [] []]; try done. }
    apply Ascii.eqb_eq in Ha as ->.
    destruct s as [|c rest]; [done|]. cbn [span].
    destruct (is_word c) eqn:Hc; [by eauto|]. done.
  - intros (c & rest & -> & Hc).
    change (startswith "@" (String "@" (String c rest))) with true.
    cbn [negb]. unfold match_code. cbn [span]. rewrite Hc.
    destruct (span is_word rest) as [w r].
    change (String.eqb (String c w) "") with false. cbv beta iota.
    destruct r as [|d r]; [done|].
    destruct (Ascii.eqb d ":") eqn:Hd.
    + apply Ascii.eqb_eq in Hd as ->.
      destruct (span _ r) as [x y]. by destruct (String.eqb x "").
    + destruct d as [[] [] [] [] [] [] [] []]; done.
Qed.

Lemma startswith_sigil (s : string) : startswith "@" ("@" +:+ s) = true.
Proof. by destruct s. Qed.

(** A loop over tokens in which a token either writes one entry or
    leaves the dictionary alone: an entry stays until a later writing
    token has the same key, and a key that no token writes keeps what it
    had. *)
Lemma foldl_writes_keep {V : Type} (writes : string -> bool)
    (key : string -> string) (value : string -> V)
    (step : gmap string V -> string -> gmap string V) :
  (∀ m t, step m t = if writes t then <[key t := value t]> m else m) ->
  ∀ tokens m k,
    (∀ token, token ∈ tokens -> writes token = true -> key token ≠ k) ->
    foldl step m tokens !! k = m !! k.
Proof.
  intros Hstep. induction tokens as [|t l IH]; intros m k Hk; [done|].
  cbn [foldl]. rewrite IH.
  - rewrite Hstep. destruct (writes t) eqn:Hw; [|done].
    rewrite lookup_insert_ne; [done|]. apply Hk; [by left|done].
  - intros token Hin. apply Hk. by right.
Qed.

Lemma foldl_writes_lookup {V : Type} (writes : string -> bool)
    (key : string -> string) (value : string -> V)
    (step : gmap string V -> string -> gmap string V) :
  (∀ m t, step m t = if writes t then <[key t := value t]> m else m) ->
  ∀ tokens m i token,
    tokens !! i = Some token -> writes token = true ->
    (∀ j later, i < j -> tokens !! j = Some later -> writes later = true ->
                key later ≠ key token) ->
    foldl step m tokens !! key token = Some (value token).
Proof.
  intros Hstep. induction tokens as [|t l IH]; intros m i token Hi Hw Hlater;
    [done|].
  cbn [foldl]. destruct i as [|i].
  - injection Hi as ->.
    rewrite (foldl_writes_keep writes key value step Hstep).
    + by rewrite Hstep, Hw, lookup_insert_eq.
    + intros later Hin Hwl. apply list_elem_of_lookup in Hin as [j Hj].
      apply (Hlater (S j) later); [lia|done|done].
  - apply (IH _ i token Hi Hw).
    intros j later Hj Hl. apply (Hlater (S j) later); [lia|done].
Qed.

Lemma enhanced_parse_param_token (params : gmap string string) (token : string) :
  parse_param params token
  = if true then <[EnhancedBatch.token_key token
                   := EnhancedBatch.token_value token]> params
    else params.
Proof.
  unfold parse_param, EnhancedBatch.token_key, EnhancedBatch.token_value.
  destruct (has_char "=" token); [|done].
  by destruct (split1 "=" token) as [key value].
Qed.

Lemma enhanced_parse_tokens (name : string) (tokens : list string) :
  name ≠ "" -> all is_word name = true ->
  join "," tokens ≠ "" ->
  Forall (fun token => has_char "," token = false
                       ∧ has_char newline token = false) tokens ->
  parse_jump_code ("@" +:+ name +:+ ":" +:+ join "," tokens)
  = Ok (mk_parsed name (foldl parse_param ∅ tokens)
          ("@" +:+ name +:+ ":" +:+ join "," tokens)).
Proof.
  intros Hn Hw Hj Hall. unfold parse_jump_code.
  rewrite startswith_sigil. cbn [negb].
  assert (Hnl : has_char newline (join "," tokens) = false).
  { apply has_char_join; [done|]. eapply Forall_impl; [exact Hall|].
    by intros tok [_ ?]. }
  assert (Hm : match_code ("@" +:+ name +:+ ":" +:+ join "," tokens)
               = Some (name, Some (join "," tokens))).
  { change ("@" +:+ name +:+ ":" +:+ join "," tokens)
      with (String "@" (name +:+ ":" +:+ join "," tokens)).
    unfold match_code.
    rewrite (span_app is_word name (":" +:+ join "," tokens)) by done.
    rewrite eqb_empty_false by done.
    change (":" +:+ join "," tokens) with (String ":" (join "," tokens)).
    cbv beta iota.
    rewrite <- (app_empty_r (join "," tokens)) at 1.
    rewrite (span_app _ (join "," tokens) "")
      by (by rewrite ?all_not_newline, ?Hnl).
    by rewrite eqb_empty_false by done. }
  rewrite Hm. cbv zeta. cbn [default from_option id].
  rewrite eqb_empty_false by done.
  rewrite split_join; [done| |].
  - intros ->. by apply Hj.
  - eapply Forall_impl; [exact Hall|]. by intros tok [? _].
Qed.

(** X20: the enhanced parser keeps every parameter value as the text
    it was written as, stripped and never coerced.  A token [key=value]
    that no later token overrides is stored under the stripped key; a
    token without [=] is stored under the one key [value], so of several
    such tokens only the last is kept. *)
Theorem enhanced_parameters_stay_text (name : string) (tokens : list string) :
  name ≠ "" -> all is_word name = true ->
  join "," tokens ≠ "" ->
  Forall (fun token => has_char "," token = false
                       ∧ has_char newline token = false) tokens ->
  ∃ p,
    parse_jump_code ("@" +:+ name +:+ ":" +:+ join "," tokens) = Ok p ∧
    EnhancedJumpCodeProcessor.name p = name ∧
    ∀ i token,
      tokens !! i = Some token ->
      (∀ j later, i < j -> tokens !! j = Some later ->
                  EnhancedBatch.token_key later ≠ EnhancedBatch.token_key token) ->
      (∀ k v, token = k +:+ "=" +:+ v -> has_char "=" k = false ->
         EnhancedBatch.token_key token = strip k ∧
         params p !! strip k = Some (strip v)) ∧
      (has_char "=" token = false ->
         EnhancedBatch.token_key token = "value" ∧
         params p !! "value" = Some (strip token)).
Proof.
  intros Hn Hw Hj Hall. eexists.
  split; [by apply enhanced_parse_tokens|]. split; [done|].
  cbn [params]. intros i token Hi Hlater.
  pose proof (foldl_writes_lookup (fun _ => true) EnhancedBatch.token_key
                EnhancedBatch.token_value parse_param
                enhanced_parse_param_token tokens ∅ i token Hi eq_refl) as Hl.
  specialize (Hl (fun j later Hj Hjl _ => Hlater j later Hj Hjl)).
  split.
  - intros k v -> Hk.
    assert (Hkey : EnhancedBatch.token_key (k +:+ "=" +:+ v) = strip k).
    { unfold EnhancedBatch.token_key. rewrite has_char_app.
      change (has_char "=" ("=" +:+ v)) with true. rewrite orb_true_r.
      change ("=" +:+ v) with (String "=" v). by rewrite split1_app. }
    split; [done|]. rewrite <- Hkey, Hl.
    unfold EnhancedBatch.token_value. rewrite has_char_app.
    change (has_char "=" ("=" +:+ v)) with true. rewrite orb_true_r.
    change ("=" +:+ v) with (String "=" v). by rewrite split1_app.
  - intros Hb.
    assert (Hkey : EnhancedBatch.token_key token = "value").
    { unfold EnhancedBatch.token_key. by rewrite Hb. }
    split; [done|]. rewrite <- Hkey, Hl.
    unfold EnhancedBatch.token_value. by rewrite Hb.
Qed.

End EnhancedParsing.

(** ** The middleware: parameters of a macro call *)

Section MacroCallParameters.

Import PyStr.

Lemma has_char_lstrip_eq (c : ascii) (s : string) :
  is_space c = false -> has_char c (lstrip s) = has_char c s.
Proof.
  intros Hc. induction s as [|d s IH]; [done|]. cbn [lstrip has_char].
  destruct (is_space d) eqn:Hd; [|done].
  rewrite IH. destruct (Ascii.eqb c d) eqn:Hcd; [|done].
  apply Ascii.eqb_eq in Hcd as ->. congruence.
Qed.

Lemma has_char_rstrip_eq (c : ascii) (s : string) :
  is_space c = false -> has_char c (rstrip s) = has_char c s.
Proof.
  intros Hc. induction s as [|d s IH]; [done|]. cbn [rstrip has_char].
  destruct (String.eqb (rstrip s) "" && is_space d) eqn:Hd.
  - apply andb_prop in Hd as [Hr Hd]. apply String.eqb_eq in Hr.
    rewrite <- IH, Hr. cbn [has_char]. rewrite orb_false_r.
    symmetry. apply Ascii.eqb_neq. intros ->. congruence.
  - cbn [has_char]. by rewrite IH.
Qed.

Lemma has_char_strip_eq (c : ascii) (s : string) :
  is_space c = false -> has_char c (strip s) = has_char c s.
Proof.
  intros Hc. unfold strip. by rewrite has_char_rstrip_eq, has_char_lstrip_eq.
Qed.

Lemma parse_macro_param_token (params : gmap string string) (token : string) :
  JumpCodeMiddleware.parse_macro_param params token
  = if has_char "=" token
    then <[macro_token_key token := macro_token_value token]> params
    else params.
Proof.
  unfold JumpCodeMiddleware.parse_macro_param, macro_token_key,
    macro_token_value.
  rewrite has_char_strip_eq by done.
  destruct (has_char "=" token); [|done].
  by destruct (split1 "=" (strip token)) as [key value].
Qed.

Lemma _parse_macro_params_tokens (tokens : list string) :
  Forall (fun token => has_char "," token = false) tokens ->
  JumpCodeMiddleware._parse_macro_params (join "," tokens)
  = foldl JumpCodeMiddleware.parse_macro_param ∅ tokens.
Proof.
  intros Hall. unfold JumpCodeMiddleware._parse_macro_params.
  destruct (String.eqb (join "," tokens) "") eqn:Hj.
  - apply String.eqb_eq in Hj. destruct tokens as [|t [|t' l]]; [done| |].
    + cbn in Hj. by subst t.
    + change (join "," (t :: t' :: l))
        with (t +:+ String "," (join "," (t' :: l))) in Hj.
      by destruct t.
  - rewrite split_join; [done| |done]. by intros ->.
Qed.

(** X21: the parameters of a macro call [!name(k1=v1, ...)].  A token that
    has an equals sign is stored under its stripped key with its stripped
    value, as text, until a later such token has the same key; a token
    without one is dropped, so a key that no token with an equals sign
    writes is absent. *)
Theorem macro_call_parameters_are_text (tokens : list string) :
  Forall (fun token => has_char "," token = false) tokens ->
  (∀ i token,
     tokens !! i = Some token -> has_char "=" token = true ->
     (∀ j later, i < j -> tokens !! j = Some later ->
                 has_char "=" later = true ->
                 macro_token_key later ≠ macro_token_key token) ->
     JumpCodeMiddleware._parse_macro_params (join "," tokens)
       !! macro_token_key token = Some (macro_token_value token)) ∧
  (∀ k v, has_char "=" k = false ->
     macro_token_key (k +:+ "=" +:+ v) = strip k ∧
     macro_token_value (k +:+ "=" +:+ v) = strip v) ∧
  (∀ key,
     (∀ token, token ∈ tokens -> has_char "=" token = true ->
               macro_token_key token ≠ key) ->
     JumpCodeMiddleware._parse_macro_params (join "," tokens) !! key = None).
Proof.
  intros Hall. rewrite _parse_macro_params_tokens by done.
  split; [|split].
  - intros i token Hi Hw Hlater.
    by apply (foldl_writes_lookup (has_char "=") macro_token_key
                macro_token_value _ parse_macro_param_token tokens ∅ i).
  - intros k v Hk. unfold macro_token_key, macro_token_value.
    rewrite strip_token.
    change ("=" +:+ rstrip v) with (String "=" (rstrip v)).
    rewrite split1_app by (by apply has_char_lstrip).
    cbn [fst snd]. by rewrite strip_lstrip, strip_rstrip.
  - intros key Hkey.
    by rewrite (foldl_writes_keep (has_char "=") macro_token_key
                  macro_token_value _ parse_macro_param_token tokens ∅ key).
Qed.

End MacroCallParameters.

(** ** The enhanced processor: what a call can return *)

Section EnhancedResults.

Import PyStr EnhancedJumpCodeProcessor.

(** A call of [execute_async] that returns has found no handler and has
    run none: its command is unknown or names a macro, the processor is
    as it was, and the result carries no handler's value. *)
Lemma execute_async_ok_inv (re_match : string -> string -> bool) (fuel : nat) :
  ∀ self code r self',
    execute_async fuel re_match self code = Some (Ok r, self') ->
    self' = self ∧ EnhancedBatch.carries_handler_value r = false ∧
    ∃ p, parse_jump_code code = Ok p ∧
         get_handler re_match (registry self) ("@" +:+ name p) = None.
Proof.
  induction fuel as [|fuel IH]; intros self code r self' H; [done|].
  cbn [execute_async] in H.
  destruct (parse_jump_code code) as [p|e] eqn:Hp; [|done].
  destruct (get_handler re_match (registry self) ("@" +:+ name p)) eqn:Hh;
    [done|].
  destruct (macros (registry self) !! name p) as [commands|].
  2:{ injection H as <- <-. eauto. }
  match type of H with
  | match ?f commands [] self with _ => _ end = _ => set (loop := f) in H
  end.
  assert (Hloop : ∀ commands results self0 r0 self1,
            loop commands results self0 = Some (Ok r0, self1) ->
            self1 = self0 ∧ EnhancedBatch.carries_handler_value r0 = false).
  { clear H. induction commands0 as [|command l IHl];
      intros results self0 r0 self1 H.
    - injection H as <- <-. done.
    - cbn [loop] in H.
      destruct (execute_async fuel re_match self0 command)
        as [[[r1|e1] self2]|] eqn:He; [|done|done].
      apply IH in He as (-> & _ & _).
      destruct (negb (success_of r1)).
      + injection H as <- <-. done.
      + by apply IHl in H. }
  destruct (loop commands [] self) as [[[r1|e1] self2]|] eqn:Hl; [|done|done].
  injection H as <- <-. apply Hloop in Hl as [-> Hc]. eauto.
Qed.

(** X22: the enhanced processor returns a result only for a command
    that has no handler, an unknown name or a macro, and then leaves the
    processor as it was; a result never carries the value a handler
    returned. *)
Theorem processor_never_returns_a_handler_value
    (re_match : string -> string -> bool) (fuel : nat) (self self' : t)
    (code : string) (r : JumpCodeResult) :
  EnhancedBatch.execute fuel re_match self code = Some (Ok r, self') ->
  self' = self ∧ EnhancedBatch.carries_handler_value r = false ∧
  ∃ p, parse_jump_code code = Ok p ∧
       get_handler re_match (registry self) ("@" +:+ name p) = None.
Proof. apply execute_async_ok_inv. Qed.

Lemma sequential_loop_shape (re_match : string -> string -> bool) (fuel : nat)
    (self : t) (codes : list string) :
  ∀ results out self',
    EnhancedBatch.sequential_loop fuel re_match self codes results
    = Some (Ok out, self') ->
    self' = self ∧
    ∃ new, out = results ++ new ∧ length new ≤ length codes ∧
      (∀ i r, new !! i = Some r ->
         ∃ code, codes !! i = Some code ∧
                 EnhancedBatch.execute fuel re_match self code
                 = Some (Ok r, self)) ∧
      (∀ i r, i + 1 < length new -> new !! i = Some r ->
              success_of r = true) ∧
      (length new < length codes ->
       ∃ r, last new = Some r ∧ success_of r = false).
Proof.
  induction codes as [|code l IH]; intros results out self' H.
  - injection H as <- <-. split; [done|]. exists [].
    rewrite app_nil_r. repeat split; try done. cbn. lia.
  - cbn [EnhancedBatch.sequential_loop] in H.
    destruct (EnhancedBatch.execute fuel re_match self code)
      as [[[r1|e1] self1]|] eqn:He; [|done|done].
    pose proof He as He'. apply execute_async_ok_inv in He' as (-> & _ & _).
    cbv zeta in H. destruct (success_of r1) eqn:Hs; cbn [negb] in H.
    + apply IH in H as (-> & new & -> & Hlen & Hat & Hok & Hshort).
      split; [done|]. exists (r1 :: new). rewrite <- app_assoc.
      split; [done|]. split; [cbn; lia|]. split; [|split].
      * intros [|i] r Hi; [injection Hi as <-; by exists code|].
        by apply Hat.
      * intros [|i] r Hi Hr; [by injection Hr as <-|].
        apply (Hok i r); [cbn in Hi; lia|done].
      * intros Hlt. cbn in Hlt.
        destruct Hshort as (r & Hr & Hf); [lia|].
        exists r. split; [|done]. destruct new; [done|]. by rewrite last_cons, Hr.
    + injection H as <- <-. split; [done|]. exists [r1].
      split; [done|]. split; [cbn; lia|]. split; [|split].
      * intros [|i] r Hi; [injection Hi as <-; by exists code|done].
      * intros i r Hi. cbn in Hi. lia.
      * intros _. by exists r1.
Qed.

(** X23: a sequential batch of the enhanced processor that returns.  The
    i-th result is the result of the i-th command, every result but the
    last is a success, and a batch that returns fewer results than it
    had commands ends in a failure; the processor is as it was. *)
Theorem sequential_batch_stops_at_first_failure
    (re_match : string -> string -> bool) (fuel : nat) (self self' : t)
    (codes : list string) (results : list JumpCodeResult) :
  EnhancedBatch.execute_sequential fuel re_match self codes
  = Some (Ok results, self') ->
  self' = self ∧ length results ≤ length codes ∧
  (∀ i r, results !! i = Some r ->
     ∃ code, codes !! i = Some code ∧
             EnhancedBatch.execute fuel re_match self code = Some (Ok r, self)) ∧
  (∀ i r, i + 1 < length results -> results !! i = Some r ->
          success_of r = true) ∧
  (length results < length codes ->
   ∃ r, last results = Some r ∧ success_of r = false).
Proof.
  intros H. apply sequential_loop_shape in H as (-> & new & -> & H).
  by rewrite app_nil_l.
Qed.

End EnhancedResults.

(** ** The squad: commands inside a text *)

Section SquadInline.

Import PyStr.

Lemma inline_from_skip (a b : string) :
  SquadInput.findall_from (String.length a) (a +:+ b)
  = SquadInput.findall_from 0 b.
Proof.
  induction a as [|c a IH]; [by destruct b|]. rewrite app_cons. exact IH.
Qed.

Lemma inline_from_step (c : ascii) (s : string) :
  SquadInput.findall_from 0 (String c s)
  = match SquadInput.inline_at (String c s) with
    | Some body => body :: SquadInput.findall_from (String.length body + 2) s
    | None => SquadInput.findall_from 0 s
    end.
Proof. reflexivity. Qed.

Lemma inline_from_no_sigil (s : string) :
  has_char "@" s = false -> ∀ skip, SquadInput.findall_from skip s = [].
Proof.
  induction s as [|c s IH]; intros Hs skip; [done|].
  cbn [has_char] in Hs. apply orb_false_elim in Hs as [Hc Hs].
  cbn [SquadInput.findall_from]. destruct skip as [|k]; [|by apply IH].
  assert (Hn : SquadInput.inline_at (String c s) = None).
  { unfold SquadInput.inline_at.
    destruct (Ascii.eqb c "{") eqn:E.
    - apply Ascii.eqb_eq in E as ->. destruct s as [|d s']; [done|].
      cbn [has_char] in Hs. apply orb_false_elim in Hs as [Hd _].
      destruct (Ascii.eqb d "@") eqn:E'.
      + apply Ascii.eqb_eq in E' as ->. done.
      + destruct d as [[] [] [] [] [] [] [] []]; done.
    - destruct c as [[] [] [] [] [] [] [] []]; done. }
  rewrite Hn. by apply IH.
Qed.

Lemma inline_from_prefix (pre text : string) :
  has_char "{" pre = false ->
  SquadInput.findall_from 0 (pre +:+ text) = SquadInput.findall_from 0 text.
Proof.
  induction pre as [|c pre IH]; intros Hp; [by rewrite app_empty_l|].
  cbn [has_char] in Hp. apply orb_false_elim in Hp as [Hc Hp].
  rewrite app_cons. cbn [SquadInput.findall_from].
  assert (Hn : SquadInput.inline_at (String c (pre +:+ text)) = None).
  { unfold SquadInput.inline_at.
    destruct c as [[] [] [] [] [] [] [] []]; done. }
  rewrite Hn. by apply IH.
Qed.

Lemma inline_at_found (body post : string) :
  body ≠ "" -> has_char "}" body = false ->
  SquadInput.inline_at (String "{" (String "@" (body +:+ String "}" post)))
  = Some body.
Proof.
  intros Hb Hc. unfold SquadInput.inline_at.
  rewrite (span_app _ body (String "}" post)); [|clear Hb|done].
  - by rewrite eqb_empty_false.
  - induction body as [|d body IH]; [done|]. cbn [has_char] in Hc.
    apply orb_false_elim in Hc as [Hd Hc]. cbn [all].
    rewrite (IH Hc), andb_true_r, (Ascii.eqb_sym d "}"), Hd. done.
Qed.

Lemma findall_inline_found (pre body post : string) :
  has_char "{" pre = false -> body ≠ "" -> has_char "}" body = false ->
  SquadInput.findall_inline (pre +:+ "{@" +:+ body +:+ "}" +:+ post)
  = body :: SquadInput.findall_inline post.
Proof.
  intros Hp Hb Hc. unfold SquadInput.findall_inline.
  rewrite inline_from_prefix by done.
  change ("{@" +:+ body +:+ "}" +:+ post)
    with (String "{" (String "@" (body +:+ String "}" post))).
  rewrite inline_from_step, inline_at_found by done. f_equal.
  assert (E : String "@" (body +:+ String "}" post)
              = String "@" (body +:+ "}") +:+ post).
  { rewrite app_cons. f_equal. by rewrite app_assoc_s. }
  assert (L : String.length body + 2
              = String.length (String "@" (body +:+ "}"))).
  { cbn [String.length]. rewrite length_app_s. simpl. lia. }
  rewrite E, L. exact (inline_from_skip (String "@" (body +:+ "}")) post).
Qed.

(** X24: a text that does not begin with the sigil and holds an inline
    code [{@body}].  The first inline code is run as the command [@body],
    the ones after it are run in order on the squad it leaves behind, and
    the reply lists the results in that order with the text itself. *)
Theorem inline_codes_run_in_order (self : EnhancedAgentSquad.t)
    (pre body post : string) :
  has_char "{" pre = false -> has_char "@" pre = false ->
  body ≠ "" -> has_char "}" body = false ->
  let text := pre +:+ "{@" +:+ body +:+ "}" +:+ post in
  let first := EnhancedAgentSquad.process_jump_code self ("@" +:+ body) in
  let others := SquadInput.run_inline first.2 (SquadInput.findall_inline post) in
  SquadInput.process_input_with_jump_codes self text
  = (Some (VDict (<["type" := VStr "inline_codes"]>
                 (<["results" := VList (first.1 :: others.1)]>
                 (<["original_input" := VStr text]> ∅)))), others.2).
Proof.
  intros Hp Ha Hb Hc text first others.
  unfold SquadInput.process_input_with_jump_codes.
  assert (Hs : startswith "@" text = false).
  { subst text. destruct pre as [|c pre]; [done|].
    cbn [has_char] in Ha. apply orb_false_elim in Ha as [Ha _].
    rewrite app_cons. unfold startswith. cbn [String.prefix].
    destruct (Ascii.ascii_dec "@" c) as [<-|]; [done|done]. }
  rewrite Hs. subst text. rewrite findall_inline_found by done.
  cbn [SquadInput.run_inline]. fold first.
  destruct first as [r self1]. cbn [fst snd] in others. fold others.
  by destruct others as [rs self2].
Qed.

(** X25: a text without the sigil character is no command: the squad
    returns nothing for it and stays as it was. *)
Theorem text_without_sigil_is_passed_over (self : EnhancedAgentSquad.t)
    (user_input : string) :
  has_char "@" user_input = false ->
  SquadInput.process_input_with_jump_codes self user_input = (None, self).
Proof.
  intros H. unfold SquadInput.process_input_with_jump_codes.
  assert (Hs : startswith "@" user_input = false).
  { destruct user_input as [|c s]; [done|].
    cbn [has_char] in H. apply orb_false_elim in H as [Ha _].
    unfold startswith. cbn [String.prefix].
    destruct (Ascii.ascii_dec "@" c) as [<-|]; [done|done]. }
  rewrite Hs. unfold SquadInput.findall_inline.
  by rewrite inline_from_no_sigil.
Qed.

End SquadInline.

(** ** The registry as constructed *)

Section CoreRegistry.

Import PyStr JumpCodeRegistry.

#[local] Ltac fixed :=
  vm_compute (default _ _); repeat split; intros; try discriminate;
  repeat match goal with H : _ ∨ _ |- _ => destruct H end;
  subst; try discriminate; try contradiction; auto.

Lemma parsed_code_is_word (s : string) (p : parsed) :
  _parse_jump_code s = Ok p -> all is_word (parsed_code p) = true.
Proof.
  rewrite _parse_jump_code_unfold.
  destruct (match_code _) as [[w g]|] eqn:Hm; [|done].
  destruct (if String.eqb (default "" g) "" then _ else _) as [m|e]; [|done].
  intros [= <-]. by apply match_code_name in Hm as [_ Hw].
Qed.

(** X26: the registry as its constructor leaves it, whatever the three
    built-in handlers are.  It holds the commands status, help and list
    and nothing else, and a parsed command name reaches help exactly
    when it is [help] or [h]: the alias [?] is in the alias table, but
    no command string resolves through it.  The names that reach status
    are [status], [s] and [stat], those that reach list are [list], [ls]
    and [l]. *)
Theorem constructed_registry_resolves_word_aliases
    (_status_handler _help_handler _list_handler
       : gmap string pyval -> gmap string pyval -> hreturn) :
  ∃ self,
    CoreCodes.init _status_handler _help_handler _list_handler = Ok self ∧
    dom (codes self) = ({["status"; "help"; "list"]} : gset string) ∧
    aliases self !! "?" = Some "help" ∧
    ∀ s p, _parse_jump_code s = Ok p ->
      let name := parsed_code p in
      (resolve self name = "status"
       ↔ name = "status" ∨ name = "s" ∨ name = "stat") ∧
      (resolve self name = "help" ↔ name = "help" ∨ name = "h") ∧
      (resolve self name = "list"
       ↔ name = "list" ∨ name = "ls" ∨ name = "l").
Proof.
  eexists. split; [reflexivity|]. split; [|split; [reflexivity|]].
  { cbn [codes]. rewrite !dom_insert_L, dom_empty_L.
    apply set_eq. intros x. rewrite !elem_of_union, !elem_of_singleton.
    rewrite elem_of_empty. tauto. }
  intros s p Hp name. pose proof (parsed_code_is_word s p Hp) as Hw.
  fold name in Hw. clearbody name. clear Hp.
  unfold resolve. cbn [aliases foldl JumpCode.aliases JumpCode.code].
  assert (Hq : name ≠ "?") by (by intros ->).
  destruct (decide (name = "l")) as [->|Hl]; [fixed|].
  destruct (decide (name = "ls")) as [->|Hls]; [fixed|].
  destruct (decide (name = "h")) as [->|Hh]; [fixed|].
  destruct (decide (name = "stat")) as [->|Hstat]; [fixed|].
  destruct (decide (name = "s")) as [->|Hs]; [fixed|].
  rewrite !lookup_insert_ne by done. rewrite lookup_empty.
  cbn [default from_option]. fixed.
Qed.

End CoreRegistry.

(** ** The further properties at sample data *)

Section AtMoreSamples.

Import PyStr.

Lemma alias_runs_like_canonical_name_witness :
  ∃ r,
    JumpCodeRegistry.register (JumpCodeRegistry.mk ∅ ∅) Samples.jc_echo = Ok r ∧
    "e" ∈ JumpCode.aliases Samples.jc_echo ∧
    JumpCodeRegistry.resolve r "e" = "echo" ∧
    JumpCodeRegistry.execute r "@e:x=1" ∅
    = JumpCodeRegistry.execute r "@echo:x=1" ∅.
Proof.
  assert (Ha : "e" ∈ JumpCode.aliases Samples.jc_echo) by (by left).
  eexists. split; [reflexivity|]. split; [exact Ha|].
  exact (alias_runs_like_canonical_name (JumpCodeRegistry.mk ∅ ∅) _
           Samples.jc_echo "e" "@e:x=1" "@echo:x=1" (<["x" := VInt 1]> ∅) ∅
           eq_refl Ha eq_refl eq_refl eq_refl).
Defined.

Lemma register_then_unregister_witness :
  ∃ r,
    JumpCodeRegistry.register (JumpCodeRegistry.mk ∅ ∅) Samples.jc_echo = Ok r ∧
    JumpCodeRegistry.unregister r "echo" = (true, JumpCodeRegistry.mk ∅ ∅).
Proof.
  eexists. split; [reflexivity|].
  exact (register_then_unregister (JumpCodeRegistry.mk ∅ ∅) _ Samples.jc_echo
           eq_refl eq_refl (fun alias _ => lookup_empty alias)).
Defined.

Lemma stale_alias_survives_unregister_witness :
  ∃ r1 r2,
    JumpCodeRegistry.register (JumpCodeRegistry.mk ∅ ∅) Samples.jc_echo = Ok r1 ∧
    JumpCodeRegistry.register r1 MoreSamples.jc_echo_again = Ok r2 ∧
    ("e" ∉ JumpCode.aliases MoreSamples.jc_echo_again) ∧
    JumpCodeRegistry.aliases (JumpCodeRegistry.unregister r2 "echo").2 !! "e"
    = Some "echo" ∧
    JumpCodeRegistry.codes (JumpCodeRegistry.unregister r2 "echo").2 !! "echo"
    = None ∧
    JumpCodeRegistry.execute (JumpCodeRegistry.unregister r2 "echo").2 "@e" ∅
    = mk_hreturn (Raise (ValueError "Unknown jump code: echo")) ∅.
Proof.
  assert (Ha : "e" ∈ JumpCode.aliases Samples.jc_echo) by (by left).
  assert (Hn : "e" ∉ JumpCode.aliases MoreSamples.jc_echo_again).
  { intros H. apply elem_of_cons in H as [H|H]; [discriminate|].
    by apply elem_of_nil in H. }
  eexists _, _. split; [reflexivity|]. split; [reflexivity|].
  split; [exact Hn|].
  exact (stale_alias_survives_unregister (JumpCodeRegistry.mk ∅ ∅) _ _
           Samples.jc_echo MoreSamples.jc_echo_again "e" "@e" ∅ ∅
           eq_refl eq_refl eq_refl Ha Hn eq_refl).
Defined.

Lemma parsed_names_are_words_witness :
  ∃ p,
    JumpCodeRegistry._parse_jump_code "@help:filter=agent" = Ok p ∧
    JumpCodeRegistry.parsed_code p = "help" ∧
    JumpCodeRegistry.parsed_code p ≠ "?".
Proof.
  eexists. split; [reflexivity|]. split; [reflexivity|].
  destruct (parsed_names_are_words "@help:filter=agent" _ eq_refl)
    as (_ & _ & H).
  exact (H "?" eq_refl).
Defined.

Lemma failure_before_handler_keeps_context_witness :
  h_out (JumpCodeRegistry.execute Samples.registry "@nope" (<["k" := VInt 1]> ∅))
  = Raise (ValueError "Unknown jump code: nope") ∧
  h_ctx (JumpCodeRegistry.execute Samples.registry "@nope" (<["k" := VInt 1]> ∅))
  = <["k" := VInt 1]> ∅.
Proof.
  split; [reflexivity|].
  apply (failure_before_handler_keeps_context Samples.registry "@nope" _
           (ValueError "Unknown jump code: nope") eq_refl).
  intros (context' & p & jc & Hp & Hc & _).
  injection Hp as <-. vm_compute in Hc. discriminate.
Defined.

Lemma short_run_ends_in_critical_failure_witness :
  length (SequentialJumpCodes.run_steps Samples.registry Samples.clock 3 0
            ["@echo"; "@nope"; "@echo"] ∅ []).1 < 3 ∧
  ∃ step,
    last (SequentialJumpCodes.run_steps Samples.registry Samples.clock 3 0
            ["@echo"; "@nope"; "@echo"] ∅ []).1 = Some step ∧
    Step.success step = false ∧
    has_critical_text (default "" (Step.error step)) = true.
Proof.
  assert (H : length (SequentialJumpCodes.run_steps Samples.registry
                        Samples.clock (length ["@echo"; "@nope"; "@echo"]) 0
                        ["@echo"; "@nope"; "@echo"] ∅ []).1
              < length ["@echo"; "@nope"; "@echo"])
    by (vm_compute; lia).
  split; [exact H|].
  exact (short_run_ends_in_critical_failure Samples.registry Samples.clock
           ["@echo"; "@nope"; "@echo"] ∅ H).
Defined.

Lemma zero_capacity_keeps_everything_witness :
  SequentialJumpCodes.max_memory_size MoreSamples.unbounded = 0%Z ∧
  SequentialJumpCodes.sequence_memory
    (foldl SequentialJumpCodes._add_to_memory MoreSamples.unbounded
       (Samples.records 3))
  = Samples.records 3.
Proof.
  split; [reflexivity|].
  exact (zero_capacity_keeps_everything MoreSamples.unbounded
           (Samples.records 3) eq_refl).
Defined.

Lemma result_keys_reach_next_step_witness :
  h_out (JumpCodeRegistry.execute MoreSamples.registry "@echo:agent=7"
           (SequentialJumpCodes.enter_step 0 [] ∅))
  = Ok (VDict (<["agent" := VInt 7]> ∅)) ∧
  (SequentialJumpCodes.run_steps MoreSamples.registry Samples.clock 2 0
     ["@echo:agent=7"; "@whois"] ∅ []).1 !! 1
  = Some (SequentialJumpCodes.ok_step Samples.clock "@whois" 1 (VInt 7)).
Proof.
  split; [reflexivity|].
  exact (proj1 (result_keys_reach_next_step MoreSamples.registry Samples.clock
                  2 0 "@echo:agent=7" "@whois" [] ∅ []
                  (VDict (<["agent" := VInt 7]> ∅)) eq_refl)).
Defined.

Lemma successful_sequences_are_complete_and_clean_witness :
  ∃ results self' record,
    SequentialJumpCodes.execute_sequence
      (SequentialJumpCodes.init Samples.registry) Samples.clock ["@echo"]
    = Ok (results, self') ∧
    last (SequentialJumpCodes.sequence_memory self') = Some record ∧
    record ∈ SequentialHistory.find_successful_sequences self'.
Proof.
  eexists _, _.
  edestruct (successful_sequences_are_complete_and_clean
               (SequentialJumpCodes.init Samples.registry) _ Samples.clock
               ["@echo"] _ ltac:(done) eq_refl)
    as (record & Hlast & _ & Hiff).
  exists record. split; [reflexivity|]. split; [exact Hlast|].
  apply Hiff. split; [discriminate|]. split; [reflexivity|].
  repeat constructor.
Defined.

Lemma usage_count_counts_expansions_witness :
  ∃ self',
    expand_each sample_macros "m" [<["r" := "dev"]> ∅; <["r" := "ops"]> ∅]
    = Ok self' ∧
    JumpCodeMacros.macros self' !! "m"
    = Some (Macro.mk ["@x:role=${r}"] "Create with a role" ["r"] 7 4).
Proof.
  eexists. split; [reflexivity|].
  exact (proj1 (usage_count_counts_expansions
                  [<["r" := "dev"]> ∅; <["r" := "ops"]> ∅] sample_macros _ "m" _
                  eq_refl eq_refl)).
Defined.

Lemma enhanced_parameters_stay_text_witness :
  ∃ p,
    EnhancedJumpCodeProcessor.parse_jump_code "@x:a=1, b = two ,solo" = Ok p ∧
    EnhancedJumpCodeProcessor.params p !! "b" = Some "two" ∧
    EnhancedJumpCodeProcessor.params p !! "value" = Some "solo".
Proof.
  assert (H1 : "x" ≠ "") by discriminate.
  assert (H2 : join "," ["a=1"; " b = two "; "solo"] ≠ "") by discriminate.
  assert (H3 : Forall (fun token => has_char "," token = false
                                    ∧ has_char newline token = false)
                 ["a=1"; " b = two "; "solo"])
    by (repeat constructor).
  destruct (enhanced_parameters_stay_text "x" ["a=1"; " b = two "; "solo"]
              H1 eq_refl H2 H3) as (p & Hp & _ & Hall).
  exists p. split; [exact Hp|]. split.
  - assert (Hlater : ∀ j later, 1 < j ->
              ["a=1"; " b = two "; "solo"] !! j = Some later ->
              EnhancedBatch.token_key later ≠ EnhancedBatch.token_key " b = two ").
    { intros [|[|[|j]]] later Hj Hl; try lia; [|done].
      injection Hl as <-. discriminate. }
    destruct (Hall 1 " b = two " eq_refl Hlater) as [Hkv _].
    exact (proj2 (Hkv " b " " two " eq_refl eq_refl)).
  - assert (Hlater : ∀ j later, 2 < j ->
              ["a=1"; " b = two "; "solo"] !! j = Some later ->
              EnhancedBatch.token_key later ≠ EnhancedBatch.token_key "solo").
    { intros [|[|[|j]]] later Hj Hl; try lia; done. }
    destruct (Hall 2 "solo" eq_refl Hlater) as [_ Hbare].
    exact (proj2 (Hbare eq_refl)).
Defined.

Lemma macro_call_parameters_are_text_witness :
  JumpCodeMiddleware._parse_macro_params "role=dev, flag ,role = ops "
    !! "role" = Some "ops" ∧
  JumpCodeMiddleware._parse_macro_params "role=dev, flag ,role = ops "
    !! "flag" = None.
Proof.
  assert (H : Forall (fun token => has_char "," token = false)
                ["role=dev"; " flag "; "role = ops "])
    by (repeat constructor).
  destruct (macro_call_parameters_are_text
              ["role=dev"; " flag "; "role = ops "] H) as (Hkv & _ & Hnone).
  split.
  - apply (Hkv 2 "role = ops " eq_refl eq_refl).
    intros [|[|[|j]]] later Hj Hl; try lia; done.
  - apply Hnone. intros token Hin Heq.
    repeat (apply elem_of_cons in Hin as [->|Hin]; [discriminate|]).
    by apply elem_of_nil in Hin.
Defined.

Lemma processor_never_returns_a_handler_value_witness :
  ∃ r,
    EnhancedBatch.execute 3 MoreSamples.literal_match MoreSamples.processor "@m"
    = Some (Ok r, MoreSamples.processor) ∧
    EnhancedJumpCodeProcessor.success_of r = false ∧
    EnhancedBatch.carries_handler_value r = false.
Proof.
  eexists. split; [reflexivity|]. split; [reflexivity|].
  exact (proj1 (proj2 (processor_never_returns_a_handler_value
                         MoreSamples.literal_match 3 MoreSamples.processor _
                         "@m" _ eq_refl))).
Defined.

Lemma sequential_batch_stops_at_first_failure_witness :
  ∃ results,
    EnhancedBatch.execute_sequential 3 MoreSamples.literal_match
      MoreSamples.processor ["@empty"; "@nope"; "@empty"]
    = Some (Ok results, MoreSamples.processor) ∧
    length results = 2 ∧
    ∃ r, last results = Some r ∧ EnhancedJumpCodeProcessor.success_of r = false.
Proof.
  eexists. split; [reflexivity|]. split; [reflexivity|].
  destruct (sequential_batch_stops_at_first_failure
              MoreSamples.literal_match 3 MoreSamples.processor _
              ["@empty"; "@nope"; "@empty"] _ eq_refl)
    as (_ & _ & _ & _ & H).
  apply H. cbn. lia.
Defined.

Lemma inline_codes_run_in_order_witness :
  SquadInput.process_input_with_jump_codes MoreSamples.squad
    "run {@echo:x=1} now"
  = (Some (VDict (<["type" := VStr "inline_codes"]>
                 (<["results" := VList [VDict (<["x" := VInt 1]> ∅)]]>
                 (<["original_input" := VStr "run {@echo:x=1} now"]> ∅)))),
     MoreSamples.squad).
Proof.
  assert (H : "echo:x=1" ≠ "") by discriminate.
  exact (inline_codes_run_in_order MoreSamples.squad "run " "echo:x=1" " now"
           eq_refl eq_refl H eq_refl).
Defined.

Lemma text_without_sigil_is_passed_over_witness :
  SquadInput.process_input_with_jump_codes MoreSamples.squad "list the agents"
  = (None, MoreSamples.squad).
Proof.
  exact (text_without_sigil_is_passed_over MoreSamples.squad "list the agents"
           eq_refl).
Defined.

End AtMoreSamples.
